(** * changelog.py: commit classification, version grouping and rendering

    A shallow embedding of [src/changelog.py] (GIT ChangeLog Creator 1.0.2).

    Python [str] values are modelled by [string]; a character is a code
    point below 256.  On that range [\d] is exactly ['0'..'9'], and
    [re.IGNORECASE] against the ASCII patterns of the script is exactly
    ASCII case folding (the extra matches Python gives to the letters i, k
    and s lie above U+00FF).

    A Python [dict] keeps its keys in insertion order and the renderer sorts
    the keys with a stable sort, so dictionaries are association lists with
    unique keys: assignment replaces in place or appends.  A subscript on a
    missing key raises [KeyError]; the grouping loop is therefore written in
    an error monad. *)

From Stdlib Require Import Bool Arith NArith Lia List Ascii String.
From Stdlib Require Import Sorting.Permutation Sorting.Sorted.
Import ListNotations.

Open Scope string_scope.
Open Scope list_scope.

Set Implicit Arguments.

(* ================================================================== *)
(** * Python string primitives *)
(* ================================================================== *)

Module PyStr.

Definition newline : ascii := "010"%char.
Definition nl : string := String newline "".

Definition is_digit (c : ascii) : bool :=
  let n := nat_of_ascii c in Nat.leb 48 n && Nat.leb n 57.

Definition is_upper (c : ascii) : bool :=
  let n := nat_of_ascii c in Nat.leb 65 n && Nat.leb n 90.

(** ASCII case folding, as used by [re.IGNORECASE] on this range. *)
Definition lower (c : ascii) : ascii :=
  if is_upper c then ascii_of_nat (nat_of_ascii c + 32) else c.

Definition eqb_ci (ic : bool) (a b : ascii) : bool :=
  if ic then Ascii.eqb (lower a) (lower b) else Ascii.eqb a b.

(** [s.startswith(p)] *)
Fixpoint startswith (p s : string) : bool :=
  match p, s with
  | EmptyString, _ => true
  | String a p', String b s' => Ascii.eqb a b && startswith p' s'
  | String _ _, EmptyString => false
  end.

(** [p in s] for strings. *)
Fixpoint contains (p s : string) : bool :=
  startswith p s ||
  match s with
  | EmptyString => false
  | String _ s' => contains p s'
  end.

(** [s.replace(old, new)]: every non-overlapping occurrence, scanning
    from the left.  [skip] counts the characters of a match still to be
    dropped.  With an empty [old] Python inserts [new] around every
    character. *)
Fixpoint replace_from (old new : string) (skip : nat) (s : string) : string :=
  match s with
  | EmptyString =>
      match old with EmptyString => new | _ => EmptyString end
  | String c s' =>
      match skip with
      | S n => replace_from old new n s'
      | O =>
          match old with
          | EmptyString => new ++ String c (replace_from old new 0 s')
          | String _ _ =>
              if startswith old s
              then new ++ replace_from old new (length old - 1) s'
              else String c (replace_from old new 0 s')
          end
      end
  end.

Definition replace (old new s : string) : string := replace_from old new 0 s.

(** [s.split(sep)] for a one-character separator: always at least one
    field. *)
Fixpoint split (sep : ascii) (s : string) : list string :=
  match s with
  | EmptyString => [EmptyString]
  | String c s' =>
      if Ascii.eqb c sep then EmptyString :: split sep s'
      else match split sep s' with
           | f :: fs => String c f :: fs
           | [] => [String c EmptyString]
           end
  end.

Fixpoint zeros (n : nat) : string :=
  match n with O => EmptyString | S n' => String "0" (zeros n') end.

(** [s.zfill(width)]: pad on the left with ['0'], after a leading sign. *)
Definition zfill (width : nat) (s : string) : string :=
  let pad := zeros (width - length s) in
  match s with
  | String c s' =>
      if Ascii.eqb c "+" || Ascii.eqb c "-" then String c (pad ++ s')
      else pad ++ s
  | EmptyString => pad
  end.

(** [x in l] for a list of strings. *)
Fixpoint mem (x : string) (l : list string) : bool :=
  match l with
  | [] => false
  | y :: l' => String.eqb x y || mem x l'
  end.

End PyStr.

(* ================================================================== *)
(** * A backtracking matcher for the [re] patterns of the script *)
(* ================================================================== *)

Module Re.
Import PyStr.

(** One-character matchers. *)
Inductive atom : Type :=
| Chr (c : ascii)                 (* a literal character *)
| Dot                             (* [.]: anything but a newline *)
| Cls (p : ascii -> bool).        (* a character class *)

(** Repetition is only ever applied to a one-character matcher in the
    script ([.*], [[\d]+], [[\d.]+], [v?]), which keeps the matcher
    structurally recursive. *)
Inductive regex : Type :=
| Eps
| One (a : atom)
| Star (a : atom)                 (* greedy [a*] *)
| Plus (a : atom)                 (* greedy [a+] *)
| Opt (a : atom)                  (* greedy [a?] *)
| Cat (r1 r2 : regex)
| Alt (r1 r2 : regex)
| Group (r : regex).              (* the capturing group *)

Definition accepts (ic : bool) (a : atom) (c : ascii) : bool :=
  match a with
  | Chr x => eqb_ci ic x c
  | Dot => negb (Ascii.eqb c newline)
  | Cls p => p c
  end.

Section Matcher.
Variable R : Type.

(** Greedy iteration: consume as long as possible, give characters back
    one at a time while the continuation fails. *)
Fixpoint star (p : ascii -> bool) (s : string)
         (k : string -> option R) : option R :=
  match s with
  | String c s' =>
      if p c then
        match star p s' k with
        | Some r => Some r
        | None => k s
        end
      else k s
  | EmptyString => k EmptyString
  end.

(** What was consumed between [s] and its suffix [s']. *)
Definition consumed (s s' : string) : string :=
  substring 0 (length s - length s') s.

Fixpoint run (ic : bool) (r : regex) (s : string) (g : option string)
         (k : string -> option string -> option R) : option R :=
  match r with
  | Eps => k s g
  | One a =>
      match s with
      | String c s' => if accepts ic a c then k s' g else None
      | EmptyString => None
      end
  | Star a => star (accepts ic a) s (fun s' => k s' g)
  | Plus a =>
      match s with
      | String c s' =>
          if accepts ic a c
          then star (accepts ic a) s' (fun s'' => k s'' g)
          else None
      | EmptyString => None
      end
  | Opt a =>
      match s with
      | String c s' =>
          if accepts ic a c then
            match k s' g with
            | Some r => Some r
            | None => k s g
            end
          else k s g
      | EmptyString => k s g
      end
  | Cat r1 r2 => run ic r1 s g (fun s' g' => run ic r2 s' g' k)
  | Alt r1 r2 =>
      match run ic r1 s g k with
      | Some x => Some x
      | None => run ic r2 s g k
      end
  | Group r' => run ic r' s g (fun s' _ => k s' (Some (consumed s s')))
  end.
End Matcher.

(** [re.match]: anchored at the start, not at the end.  The result is
    [None] for no match and [Some g] for a match object whose [group(1)]
    is [g]. *)
Definition re_match (ic : bool) (r : regex) (s : string)
  : option (option string) :=
  run ic r s None (fun _ g => Some g).

(** [re.search]: the leftmost position at which [re.match] succeeds. *)
Fixpoint re_search (ic : bool) (r : regex) (s : string)
  : option (option string) :=
  match re_match ic r s with
  | Some m => Some m
  | None =>
      match s with
      | EmptyString => None
      | String _ s' => re_search ic r s'
      end
  end.

Definition is_match (m : option (option string)) : bool :=
  match m with Some _ => true | None => false end.

(** A pattern made of plain characters. *)
Fixpoint literal (w : string) : regex :=
  match w with
  | EmptyString => Eps
  | String c w' => Cat (One (Chr c)) (literal w')
  end.

(** ['|'.join(words)] compiled: the words of the script hold no
    metacharacter, so the pattern is the alternation of the words as
    literals, tried in order. *)
Fixpoint any_of (ws : list string) : regex :=
  match ws with
  | [] => Eps
  | [w] => literal w
  | w :: ws' => Alt (literal w) (any_of ws')
  end.

End Re.

(* ================================================================== *)
(** * Python dictionaries and [KeyError] *)
(* ================================================================== *)

Inductive exn : Type :=
| KeyError (key : string).

Inductive result (A : Type) : Type :=
| Ok (a : A)
| Raise (e : exn).

Arguments Ok {A} a.
Arguments Raise {A} e.

Definition bind {A B : Type} (c : result A) (k : A -> result B) : result B :=
  match c with
  | Ok a => k a
  | Raise e => Raise e
  end.

Notation "x <- c ;; k" := (bind c (fun x => k))
  (at level 61, c at next level, right associativity).

(** A [for] loop whose body may raise. *)
Fixpoint for_each {A S : Type} (body : S -> A -> result S)
         (l : list A) (s : S) : result S :=
  match l with
  | [] => Ok s
  | x :: l' => s' <- body s x ;; for_each body l' s'
  end.

Module Dict.
Section WithValue.
Variable V : Type.

Definition t : Type := list (string * V).

Fixpoint get (k : string) (d : t) : option V :=
  match d with
  | [] => None
  | (k', v) :: d' => if String.eqb k k' then Some v else get k d'
  end.

(** [k in d] *)
Definition mem (k : string) (d : t) : bool :=
  match get k d with Some _ => true | None => false end.

(** [d[k] = v]: an existing key keeps its place, a new one goes last. *)
Fixpoint set (k : string) (v : V) (d : t) : t :=
  match d with
  | [] => [(k, v)]
  | (k', v') :: d' =>
      if String.eqb k k' then (k, v) :: d' else (k', v') :: set k v d'
  end.

(** Iteration order of [for k in d]. *)
Definition keys (d : t) : list string := map fst d.

(** [d[k]] *)
Definition subscript (k : string) (d : t) : result V :=
  match get k d with
  | Some v => Ok v
  | None => Raise (KeyError k)
  end.
End WithValue.
End Dict.

(* ================================================================== *)
(** * The script *)
(* ================================================================== *)

Import PyStr Re.

Definition app_name : string := "GIT ChangeLog Creator".

Definition esc : string := String "027"%char "".
Definition Format_FAIL : string := esc ++ "[91m".
Definition Format_ENDC : string := esc ++ "[0m".

Definition SKIP_WORDS : list string :=
  ["utd"; "wip"; "wtf"; "formater"; "set version"; "App version";
   "new version"; "init"; "ver:"].

Definition VERSION_WORDS : list string :=
  ["merge branch"; "merge tag"; "pull"; "merge"].

(** A commit as the script reads it: [author_date] holds the label
    [commit.author_date.strftime("%Y-%m-%d")]. *)
Record Commit : Type := mkCommit {
  msg : string;
  author_date : string;
  in_main_branch : bool
}.

(** ** [parse_message] *)

(** [".*(#[\d]+).*"] *)
Definition issue_regexp : regex :=
  Cat (Star Dot)
      (Cat (Group (Cat (One (Chr "#")) (Plus (Cls is_digit))))
           (Star Dot)).

(** [rematch.group(1) if rematch else ""] *)
Definition issue_of (m : string) : string :=
  match re_match false issue_regexp m with
  | Some (Some g) => g
  | _ => ""
  end.

(** The body of [if issue: msg = ...]. *)
Definition extract_issue (m : string) : string :=
  let issue := issue_of m in
  if negb (String.eqb issue "") then
    replace " :" ":" (replace issue "" m)
      ++ " (Related to issue: " ++ issue ++ ")"
  else m.

(** The chain of [.replace(old, new)] calls, first call first. *)
Definition CATEGORY_RULES : list (string * string) :=
  [ ("add ", "Add: ");
    ("add:", "Add:");
    ("Add ", "Add: ");
    ("fea ", "Feature: ");
    ("fea:", "Feature:");
    ("Fea ", "Feature: ");
    ("Fea:", "Feature:");
    ("fea?", "Feature: ");
    ("feature ", "Feature: ");
    ("fix ", "Fix: ");
    ("fix:", "Fix:");
    ("Fix ", "Fix: ");
    ("ref ", "Refactor: ");
    (" ref ", "Refactor: ");
    ("Ref:", "Refactor:");
    ("refactor ", "Refactor: ");
    ("Refactor ", "Refactor: ");
    ("rfc ", "Refactor: ");
    ("rfc:", "Refactor:");
    ("rft ", "Refactor: ");
    ("rft:", "Refactor:");
    ("Rft:", "Refactor:");
    ("enh ", "Enhancement: ");
    ("Enh ", "Enhancement: ");
    ("enh:", "Enhancement:");
    ("Enh:", "Enhancement:");
    ("enhancement ", "Enhancement:");
    ("Enhancement ", "Enhancement:") ].

Definition rewrite_categories (m : string) : string :=
  fold_left (fun acc rule => replace (fst rule) (snd rule) acc)
            CATEGORY_RULES m.

Definition parse_message (m : string) : string :=
  rewrite_categories (extract_issue m).

(** ** [parse_commits] *)

Definition bucket : Type := Dict.t (list string).
Definition ledger : Type := Dict.t bucket.

(** [re.compile('|'.join(SKIP_WORDS), re.IGNORECASE).search(m)] *)
Definition skip_search (m : string) : bool :=
  is_match (re_search true (any_of SKIP_WORDS) m).

(** [re.compile('|'.join(VERSION_WORDS), re.IGNORECASE).search(m)] *)
Definition version_search (m : string) : bool :=
  is_match (re_search true (any_of VERSION_WORDS) m).

(** [".*[\/]{1}v?([\d.]+).*"] *)
Definition release_regexp : regex :=
  Cat (Star Dot)
      (Cat (One (Cls (fun c => Ascii.eqb c "/")))
           (Cat (Opt (Chr "v"))
                (Cat (Group (Plus (Cls (fun c => is_digit c || Ascii.eqb c "."))))
                     (Star Dot)))).

(** [re.match(...)] followed by [rematch.group(1)]; the group is not under
    an optional construct, so it takes part in every match
    ([release_group_takes_part] below) and the second case never arises. *)
Definition release_match (m : string) : option string :=
  match re_match false release_regexp m with
  | Some (Some v) => Some v
  | _ => None
  end.

(** [versions[version][date]] *)
Definition get_date (versions : ledger) (version date : string)
  : result (list string) :=
  dates <- Dict.subscript version versions ;;
  Dict.subscript date dates.

(** [versions[version][date] = l] *)
Definition set_date (versions : ledger) (version date : string)
           (l : list string) : result ledger :=
  dates <- Dict.subscript version versions ;;
  Ok (Dict.set version (Dict.set date l dates) versions).

(** [if check not in versions[version][date]:
        versions[version][date].append(entry)] *)
Definition append_unless (version date : string) (versions : ledger)
           (check entry : string) : result ledger :=
  present <- get_date versions version date ;;
  if negb (mem check present) then
    l <- get_date versions version date ;;
    set_date versions version date (l ++ [entry])
  else Ok versions.

(** The release test at the top of the loop body: the new value of the
    pair [(version, versions)]. *)
Definition switch_version (m : string) (version : string) (versions : ledger)
  : string * ledger :=
  if contains "release" m then
    match release_match m with
    | Some v => (v, Dict.set v [] versions)
    | None => (version, versions)
    end
  else (version, versions).

(** The test guarding the loop body. *)
Definition kept (commit : Commit) : bool :=
  negb (skip_search (msg commit)) && in_main_branch commit.

(** One iteration of [for commit in progressbar.progressbar(commits)]. *)
Definition loop_body (st : string * ledger) (commit : Commit)
  : result (string * ledger) :=
  let '(version, versions) := st in
  if kept commit then
    let date := author_date commit in
    let '(version, versions) := switch_version (msg commit) version versions in
    dates <- Dict.subscript version versions ;;
    versions <- (if negb (Dict.mem date dates)
                 then set_date versions version date []
                 else Ok versions) ;;
    if negb (version_search (msg commit)) then
      if contains nl (msg commit) then
        versions <- for_each
                      (fun vs line =>
                         append_unless version date vs line (parse_message line))
                      (split newline (msg commit)) versions ;;
        Ok (version, versions)
      else
        let m := parse_message (msg commit) in
        versions <- append_unless version date versions m m ;;
        Ok (version, versions)
    else Ok (version, versions)
  else Ok (version, versions).

Definition initial_state : string * ledger := ("0.0.0", [("0.0.0", [])]).

(** The state after the loop has run over [commits]. *)
Definition run_commits (commits : list Commit) : result (string * ledger) :=
  for_each loop_body commits initial_state.

Definition parse_commits (commits : list Commit) : result ledger :=
  st <- run_commits commits ;; Ok (snd st).

(** ** [get_version] and [sorted] *)

(** [l[i] if len(l) > i else default] *)
Definition item_or (i : nat) (l : list string) (default : string) : string :=
  if Nat.ltb i (List.length l) then nth i l "" else default.

Definition get_version (elem : string) : string :=
  let version := split "." elem in
  let major := item_or 0 version "0" in
  let minor := item_or 1 version "0" in
  let patch := item_or 2 version "0" in
  (zfill 4 major ++ "." ++ zfill 4 minor ++ "." ++ zfill 4 patch)%string.

(** [sorted(l, reverse=..., key=...)]: a stable sort, also when reversed;
    string keys compare by code point. *)
Section Sorting.
Variable A : Type.
Variable key : A -> string.
Variable reverse : bool.

(** [x] may stand before [y]. *)
Definition before (x y : A) : bool :=
  if reverse then String.leb (key y) (key x)
  else String.leb (key x) (key y).

Fixpoint insert (x : A) (l : list A) : list A :=
  match l with
  | [] => [x]
  | y :: l' => if before x y then x :: l else y :: insert x l'
  end.

Definition sorted (l : list A) : list A := fold_right insert [] l.
End Sorting.

Definition self (s : string) : string := s.

(** ** [print_md_commits] and the text written by [write_md_commits]

    The two functions have the same body; where one calls [print(x)] the
    other calls [f.write(x)], except that the bullets are written with a
    leading newline.  [bp] is that bullet prefix, and the value computed is
    the sequence of arguments of the [print] (or [f.write]) calls. *)

Definition placeholder : string := "Bugfixes and improvements".

Record render_state : Type := mkRender {
  last_date : string;
  combined_messages : list string;
  out : list string
}.

(** The body of [for d in sorted(dates, reverse=True)]. *)
Definition date_body (bp : string) (date_group : bool) (dates : bucket)
           (st : render_state) (d : string) : render_state :=
  let messages := match Dict.get d dates with Some l => l | None => [] end in
  if date_group then
    let last_date' := d in
    if Nat.ltb 0 (List.length messages) then
      mkRender last_date' (combined_messages st)
        (out st ++ [(nl ++ "### Date: " ++ d)%string]
                ++ map (fun message => (bp ++ "    - " ++ message)%string)
                       (sorted self false messages))
    else
      mkRender last_date' (combined_messages st)
        (out st ++ [(nl ++ "### Date: " ++ last_date')%string;
                    (bp ++ "    - " ++ placeholder)%string])
  else
    mkRender (last_date st) (combined_messages st ++ messages) (out st).

(** The body of [for v in sorted(versions, reverse=True, key=get_version)];
    the state carried from one version to the next is [last_date] and the
    output. *)
Definition version_body (bp : string) (date_group : bool) (versions : ledger)
           (st : string * list string) (v : string) : string * list string :=
  let dates := match Dict.get v versions with Some d => d | None => [] end in
  let st0 := mkRender (fst st) [] (snd st ++ [(nl ++ "## Version " ++ v)%string]) in
  let st1 := fold_left (date_body bp date_group dates)
                       (sorted self true (Dict.keys dates)) st0 in
  if negb date_group then
    if Nat.ltb 0 (List.length (combined_messages st1)) then
      (last_date st1,
       out st1 ++ map (fun message => (bp ++ "  - " ++ message)%string)
                      (sorted self false (combined_messages st1)))
    else (last_date st1, out st1 ++ [(bp ++ "  - " ++ placeholder)%string])
  else (last_date st1, out st1).

Definition md_commits (bp : string) (name : string) (versions : ledger)
           (date_group : bool) : list string :=
  snd (fold_left (version_body bp date_group versions)
                 (sorted get_version true (Dict.keys versions))
                 ("", [("# " ++ name)%string])).

(** The arguments of the successive [print] calls. *)
Definition print_md_commits (name : string) (versions : ledger)
           (date_group : bool) : list string :=
  md_commits "" name versions date_group.

(** The arguments of the successive [f.write] calls. *)
Definition md_writes (name : string) (versions : ledger)
           (date_group : bool) : list string :=
  md_commits nl name versions date_group.

(** ** The process: [log_exception], [set_logger], the savers and [main] *)

Definition app_version : string := "1.0.2".

Definition VALID_FORMATS : list string := ["md"; "json"].

(** What the process can change: the files, the console and the records
    logged at level CRITICAL (the level of the logger never hides them: the
    levels [set_logger] accepts are at most CRITICAL). *)
Record world : Type := mkWorld {
  files : Dict.t string;
  stdout : list string;
  critical : list string
}.

(** An exception that no handler of the script catches. *)
Inductive uncaught : Type :=
| UncaughtValueError (m : string)
| UncaughtKeyError (key : string).

(** The ways a call can end. *)
Inductive outcome (A : Type) : Type :=
| Returns (a : A) (w : world)
| Exits (status : nat) (w : world)          (* [sys.exit(status)] *)
| Dies (e : uncaught) (w : world).          (* the exception reaches the top *)

Arguments Returns {A} a w.
Arguments Exits {A} status w.
Arguments Dies {A} e w.

Definition proc (A : Type) : Type := world -> outcome A.

Definition ret {A : Type} (a : A) : proc A := fun w => Returns a w.

Definition seq {A B : Type} (c : proc A) (k : A -> proc B) : proc B :=
  fun w =>
    match c w with
    | Returns a w' => k a w'
    | Exits status w' => Exits status w'
    | Dies e w' => Dies e w'
    end.

(** [print(line)] *)
Definition print (line : string) : proc unit :=
  fun w => Returns tt (mkWorld (files w) (stdout w ++ [line]) (critical w)).

(** A run of [print] calls. *)
Definition print_each (lines : list string) : proc unit :=
  fun w => Returns tt (mkWorld (files w) (stdout w ++ lines) (critical w)).

(** [logging.critical(...)] then [sys.exit(1)]; [code] is not used. *)
Definition log_exception {A : Type} (m : string) (code : nat) : proc A :=
  fun w =>
    Exits 1 (mkWorld (files w) (stdout w)
               (critical w
                ++ [(Format_FAIL ++ app_name ++ ": " ++ m ++ Format_ENDC)%string])).

Definition is_lower (c : ascii) : bool :=
  let n := nat_of_ascii c in Nat.leb 97 n && Nat.leb n 122.

(** [str.upper] on ASCII letters.  On code points below 256 Python changes
    other characters too, but never into the letters of a level name, so
    the test of [set_logger] comes out the same. *)
Fixpoint upper_string (s : string) : string :=
  match s with
  | EmptyString => EmptyString
  | String c s' =>
      String (if is_lower c then ascii_of_nat (nat_of_ascii c - 32) else c)
             (upper_string s')
  end.

(** The attributes of the [logging] module whose name is in upper case and
    whose value is an [int]. *)
Definition LOGGING_LEVELS : list string :=
  ["CRITICAL"; "FATAL"; "ERROR"; "WARNING"; "WARN"; "INFO"; "DEBUG"; "NOTSET"].

(** [set_logger]: [raise ValueError] when [getattr(logging, level.upper(),
    None)] is not an [int]; the handlers are taken to open. *)
Definition set_logger (level : string) : proc unit :=
  if mem (upper_string level) LOGGING_LEVELS then ret tt
  else fun w => Dies (UncaughtValueError ("Invalid log level: " ++ level)) w.

(** The file operations of a saver are numbered: 0 is [open], 1 .. n are
    the writes and n+1 is the close.  [Fault op reached] says that operation
    [op] raises.  [open(output, "w")] truncates the file at once, but what a
    write hands to the file object is buffered: of the text handed over by
    then, the failing write included, only the first [reached] characters
    are in the file when the process ends. *)
Inductive fault : Type :=
| NoFault
| Fault (op : nat) (reached : nat).

Definition failing_op (f : fault) : option nat :=
  match f with
  | NoFault => None
  | Fault op _ => Some op
  end.

Definition reached_of (f : fault) : nat :=
  match f with
  | NoFault => 0
  | Fault _ reached => reached
  end.

(** How the run of writes ends, with the text handed to the file. *)
Inductive attempt : Type :=
| Done (text : string)
| Failed (text : string).

Fixpoint write_calls (failing : option nat) (i : nat) (ws : list string)
         (text : string) : attempt :=
  match ws with
  | [] =>
      match failing with
      | Some j => if Nat.eqb j i then Failed text else Done text
      | None => Done text
      end
  | x :: ws' =>
      match failing with
      | Some j =>
          if Nat.eqb j i then Failed (text ++ x)
          else write_calls failing (S i) ws' (text ++ x)
      | None => write_calls failing (S i) ws' (text ++ x)
      end
  end.

Definition save_error (output : string) : string :=
  ("An error occurred while trying to save the output file. "
   ++ "Check if the specified path exists (" ++ output ++ ").")%string.

Definition dquote : string := String "034"%char "".

Definition saved_notice (output : string) : string :=
  ("File " ++ dquote ++ output ++ dquote ++ " was saved succesfully!")%string.

(** The body shared by the two savers: [writes] are the texts written
    between [open] and [close]. *)
Definition save (writes : list string) (output : string) (f : fault)
  : proc unit :=
  match failing_op f with
  | Some O => log_exception (save_error output) 1
  | _ =>
      fun w =>
        match write_calls (failing_op f) 1 writes "" with
        | Done text =>
            Returns tt (mkWorld (Dict.set output text (files w))
                          (stdout w ++ [saved_notice output])
                          (critical w))
        | Failed text =>
            log_exception (save_error output) 1
              (mkWorld (Dict.set output (substring 0 (reached_of f) text)
                                 (files w))
                       (stdout w) (critical w))
        end
  end.

Definition write_md_commits (name : string) (versions : ledger)
           (date_group : bool) (output : string) (f : fault) : proc unit :=
  save (md_writes name versions date_group) output f.

(** What the script is started with, after [get_parsed_args]. *)
Record Options : Type := mkOptions {
  opt_path : string;
  opt_outfile : string;
  opt_since : string;
  opt_auto_repo_name : bool;
  opt_name : string;
  opt_date_group : bool;
  opt_format : string;
  opt_level : string
}.

(** [Repository(path_to_repo=path, since=since)], or without [since]. *)
Record Repository : Type := mkRepository {
  path_to_repo : string;
  since : option string
}.

(** What the libraries and the machine answer. *)
Record Env : Type := mkEnv {
  found_name : string;                      (* [get_repo_name()] *)
  strptime_ok : string -> bool;             (* [strptime(s, '%Y-%m-%d')] returns *)
  pydriller_found : bool;                   (* the import succeeds *)
  git_ok : string -> bool;                  (* [Git(path)] returns *)
  progressbar_found : bool;                 (* the import succeeds *)
  traverse_commits : Repository -> list Commit;
  json_dumps : string -> ledger -> string;  (* [json.dumps(..., indent=4)] *)
  file_fault : fault
}.

Definition nonempty (s : string) : bool := negb (String.eqb s "").

(** [write_json_commits]: [json.dump] writes the text of [json.dumps]. *)
Definition write_json_commits (env : Env) (name : string) (versions : ledger)
           (output : string) : proc unit :=
  save [json_dumps env name versions] output (file_fault env).

(** [get_since]: the parsed date, or [""] (here [None]) without one. *)
Definition get_since (env : Env) (s : string) : proc (option string) :=
  if nonempty s then
    seq (print ("Since " ++ s))
        (fun _ =>
           if strptime_ok env s then ret (Some s)
           else log_exception
                  "Invalid specified since date. Valid format: YYYY-MM-DD" 1)
  else ret None.

Definition get_repo (env : Env) (path : string) (s : option string)
  : proc Repository :=
  if pydriller_found env then
    if git_ok env path then ret (mkRepository path s)
    else log_exception
           ("Invalid repository path. Specified folder (" ++ path
            ++ ") doesn't contain a GIT repository") 1
  else log_exception
         "You must install 'pydriller' library typing: pip3 install pydriller"
         1.

(** [parse_commits(repo)] with its import guard; a [KeyError] of the loop
    would reach the top. *)
Definition parse_commits_of (env : Env) (repo : Repository) : proc ledger :=
  if progressbar_found env then
    match parse_commits (traverse_commits env repo) with
    | Ok versions => ret versions
    | Raise (KeyError k) => fun w => Dies (UncaughtKeyError k) w
    end
  else log_exception
         "You must install 'progressbar' library typing: pip3 install progressbar2"
         1.

Definition main (env : Env) (options : Options) : proc unit :=
  seq (set_logger (opt_level options)) (fun _ =>
  let name := if opt_auto_repo_name options
              then found_name env else opt_name options in
  seq (if nonempty name then ret tt
       else log_exception
              ("You must specify Repo Name. "
               ++ "You can use --auto-name to try to auto discover it or set with --repo-name. "
               ++ "More help with --help") 1) (fun _ =>
  seq (print (app_name ++ " v" ++ app_version ++ ": Processing '" ++ name
              ++ "' repository...")) (fun _ =>
  seq (get_since env (opt_since options)) (fun s =>
  seq (get_repo env (opt_path options) s) (fun repo =>
  seq (parse_commits_of env repo) (fun commits =>
  seq (if mem (opt_format options) VALID_FORMATS then ret tt
       else log_exception
              "Invalid output format. Available formats: md, json. More help with --help."
              1) (fun _ =>
  seq (if String.eqb (opt_format options) "md" then
         if nonempty (opt_outfile options)
         then write_md_commits name commits (opt_date_group options)
                               (opt_outfile options) (file_fault env)
         else print_each (print_md_commits name commits
                                           (opt_date_group options))
       else ret tt) (fun _ =>
  if String.eqb (opt_format options) "json" then
    if nonempty (opt_outfile options)
    then write_json_commits env name commits (opt_outfile options)
    else print (json_dumps env name commits)
  else ret tt)))))))).

(* ================================================================== *)
(** * Vocabulary of the statements *)
(* ================================================================== *)

Fixpoint all_chars (p : ascii -> bool) (s : string) : bool :=
  match s with
  | EmptyString => true
  | String c s' => p c && all_chars p s'
  end.

Fixpoint lower_string (s : string) : string :=
  match s with
  | EmptyString => EmptyString
  | String c s' => String (lower c) (lower_string s')
  end.

(** [w] occurs in [m] up to the case of ASCII letters. *)
Definition contains_ci (w m : string) : bool :=
  contains (lower_string w) (lower_string m).

(** A commit that switches the current version: it passes the skip test,
    its message holds ["release"] and the release pattern matches. *)
Definition is_marker (c : Commit) : bool :=
  kept c && contains "release" (msg c)
  && match release_match (msg c) with Some _ => true | None => false end.


(** A key is present in a dictionary. *)
Definition has_key {V : Type} (k : string) (d : Dict.t V) : Prop :=
  Dict.get k d <> None.

(** What one guarded [append] leaves in the bucket. *)
Definition appended (l : list string) (check entry : string) : list string :=
  if mem check l then l else l ++ [entry].

(** What the loop over the lines of a multi-line message leaves in it. *)
Definition add_lines (l : list string) (lines : list string) : list string :=
  fold_left (fun acc line => appended acc line (parse_message line)) lines l.

(** What a commit that is not a merge adds to the bucket of its date. *)
Definition contribute (l : list string) (m : string) : list string :=
  if version_search m then l
  else if contains nl m then add_lines l (split newline m)
       else appended l (parse_message m) (parse_message m).

(** The messages already filed under a date, none if the date is new. *)
Definition filed (date : string) (dates : bucket) : list string :=
  match Dict.get date dates with Some l => l | None => [] end.

(** The net effect of one iteration of the loop on [(version, versions)],
    for a state whose current version is keyed. *)
Definition step (st : string * ledger) (c : Commit) : string * ledger :=
  if kept c then
    let (v1, l1) := switch_version (msg c) (fst st) (snd st) in
    match Dict.get v1 l1 with
    | Some dates =>
        let date := author_date c in
        (v1, Dict.set v1
               (Dict.set date (contribute (filed date dates) (msg c)) dates)
               l1)
    | None => (v1, l1)
    end
  else st.

(** The longest prefix of [s] whose characters satisfy [p], and the rest. *)
Fixpoint take_while (p : ascii -> bool) (s : string) : string :=
  match s with
  | EmptyString => EmptyString
  | String c s' => if p c then String c (take_while p s') else EmptyString
  end.

Fixpoint drop_while (p : ascii -> bool) (s : string) : string :=
  match s with
  | EmptyString => EmptyString
  | String c s' => if p c then drop_while p s' else s
  end.

Definition not_newline (c : ascii) : bool := negb (Ascii.eqb c newline).

Definition digit_or_dot (c : ascii) : bool := is_digit c || Ascii.eqb c ".".

Definition starts_with (p : ascii -> bool) (s : string) : bool :=
  match s with
  | String c _ => p c
  | EmptyString => false
  end.

(** [s] starts with [#] and a digit: an issue token starts here. *)
Definition token_start (s : string) : bool :=
  match s with
  | String c s' => Ascii.eqb "#" c && starts_with is_digit s'
  | EmptyString => false
  end.

(** Some position of the first line of [s] starts an issue token. *)
Fixpoint token_on_line (s : string) : bool :=
  match s with
  | EmptyString => false
  | String c s' =>
      if Ascii.eqb c newline then false
      else token_start s || token_on_line s'
  end.

(** The suffix that names the issue. *)
Definition issue_suffix (tok : string) : string :=
  (" (Related to issue: " ++ tok ++ ")")%string.

(** Following the words of the specification, for comparison with
    [issue_of]: the first [#] followed by one or more digits, with its
    digits. *)
Fixpoint first_token (s : string) : option string :=
  match s with
  | EmptyString => None
  | String c s' =>
      if token_start s then Some (String c (take_while is_digit s'))
      else first_token s'
  end.

(** What one commit leaves in the bucket of the current version when it
    does not switch it. *)
Definition file_commit (dates : bucket) (c : Commit) : bucket :=
  if kept c then
    Dict.set (author_date c)
             (contribute (filed (author_date c) dates) (msg c)) dates
  else dates.

(** The lines of one date in date-grouped rendering. *)
Definition date_lines (bp : string) (d : string) (messages : list string)
  : list string :=
  if Nat.ltb 0 (List.length messages) then
    (nl ++ "### Date: " ++ d)%string
    :: map (fun message => (bp ++ "    - " ++ message)%string)
           (sorted self false messages)
  else [(nl ++ "### Date: " ++ d)%string; (bp ++ "    - " ++ placeholder)%string].

Definition version_heading (v : string) : string :=
  (nl ++ "## Version " ++ v)%string.

Definition is_version_heading (line : string) : bool :=
  startswith (nl ++ "## Version ")%string line.

(** The lines of one version: its heading, then its dates or its combined
    bullets. *)
Definition version_lines (bp : string) (date_group : bool) (versions : ledger)
           (v : string) : list string :=
  let dates := match Dict.get v versions with Some d => d | None => [] end in
  let order := sorted self true (Dict.keys dates) in
  version_heading v
  :: (if date_group then
        flat_map (fun d => date_lines bp d (filed d dates)) order
      else
        let combined := flat_map (fun d => filed d dates) order in
        if Nat.ltb 0 (List.length combined) then
          map (fun message => (bp ++ "  - " ++ message)%string)
              (sorted self false combined)
        else [(bp ++ "  - " ++ placeholder)%string]).


(** [strip_v s] is [s] without a leading [v]. *)
Definition strip_v (s : string) : string :=
  match s with
  | String x s' => if Ascii.eqb "v" x then s' else s
  | EmptyString => EmptyString
  end.

(** [s] starts with a slash, an optional [v] and a digit or a dot: a
    version can be captured here. *)
Definition version_start (s : string) : bool :=
  match s with
  | String c s' => Ascii.eqb c "/" && starts_with digit_or_dot (strip_v s')
  | EmptyString => false
  end.

(** Some position of the first line of [s] starts a version. *)
Fixpoint version_on_line (s : string) : bool :=
  match s with
  | EmptyString => false
  | String c s' =>
      if Ascii.eqb c newline then false
      else version_start s || version_on_line s'
  end.

(** The version captured when the pattern, past its leading [.*], is tried
    at the start of [s]. *)
Definition version_here (s : string) : option string :=
  match s with
  | String _ s' =>
      if version_start s
      then Some (take_while digit_or_dot (strip_v s'))
      else None
  | EmptyString => None
  end.

(** Following the words of the specification, for comparison with
    [release_match]: any characters, newlines among them, then a slash, an
    optional [v] and a digit or a dot. *)
Fixpoint version_anywhere (s : string) : bool :=
  match s with
  | EmptyString => false
  | String _ s' => version_start s || version_anywhere s'
  end.




(** Every message list of the ledger, with its date, satisfies [P]. *)
Definition every_bucket (P : string -> list string -> Prop) (versions : ledger)
  : Prop :=
  forall v dates d l,
    Dict.get v versions = Some dates -> Dict.get d dates = Some l -> P d l.

(** [e] is one of the messages filed in the ledger. *)
Definition filed_in (versions : ledger) (e : string) : Prop :=
  exists v dates d l,
    Dict.get v versions = Some dates /\ Dict.get d dates = Some l /\ In e l.

(** The number written by a string of decimal digits. *)
Fixpoint digits_value (s : string) : nat :=
  match s with
  | EmptyString => 0
  | String c s' => (nat_of_ascii c - 48) * 10 ^ length s' + digits_value s'
  end.

(** Comparison of triples, first component first. *)
Definition compare3 (a b c a' b' c' : nat) : comparison :=
  match Nat.compare a a' with
  | Eq => match Nat.compare b b' with
          | Eq => Nat.compare c c'
          | r => r
          end
  | r => r
  end.

Definition date_heading (d : string) : string :=
  (nl ++ "### Date: " ++ d)%string.

Definition is_date_heading (line : string) : bool :=
  startswith (nl ++ "### Date: ")%string line.

(* ================================================================== *)
(** * Dictionaries *)
(* ================================================================== *)

Unset Implicit Arguments.

Section DictFacts.
Variable V : Type.
Implicit Types (d : Dict.t V) (k : string) (v : V).

Lemma get_set_same k v d : Dict.get k (Dict.set k v d) = Some v.
Proof.
  induction d as [| [k' v'] d IH]; simpl.
  - now rewrite String.eqb_refl.
  - destruct (String.eqb k k') eqn:E; simpl.
    + now rewrite String.eqb_refl.
    + now rewrite E.
Qed.

Lemma get_set_other k k' v d :
  k' <> k -> Dict.get k' (Dict.set k v d) = Dict.get k' d.
Proof.
  intros Hne. induction d as [| [k0 v0] d IH]; simpl.
  - destruct (String.eqb_spec k' k); [contradiction | reflexivity].
  - destruct (String.eqb_spec k k0) as [-> | Hk]; simpl.
    + destruct (String.eqb_spec k' k0); [contradiction | reflexivity].
    + destruct (String.eqb k' k0); [reflexivity | exact IH].
Qed.


Lemma keys_set_present k v d :
  has_key k d -> Dict.keys (Dict.set k v d) = Dict.keys d.
Proof.
  unfold has_key. induction d as [| [k0 v0] d IH]; simpl; intros H.
  - congruence.
  - destruct (String.eqb_spec k k0) as [-> | Hk]; simpl.
    + reflexivity.
    + f_equal. now apply IH.
Qed.

Lemma keys_set_absent k v d :
  Dict.get k d = None -> Dict.keys (Dict.set k v d) = Dict.keys d ++ [k].
Proof.
  induction d as [| [k0 v0] d IH]; simpl; intros H.
  - reflexivity.
  - destruct (String.eqb k k0); [discriminate |].
    simpl. f_equal. now apply IH.
Qed.

Lemma set_set k v v' d : Dict.set k v (Dict.set k v' d) = Dict.set k v d.
Proof.
induction d as [| [k0 v0] d IH]; simpl.
- now rewrite String.eqb_refl.
- destruct (String.eqb k k0) eqn:E; simpl.
  + now rewrite String.eqb_refl.
  + rewrite E. now f_equal.
Qed.

Lemma set_get_id k v d : Dict.get k d = Some v -> Dict.set k v d = d.
Proof.
induction d as [| [k0 v0] d IH]; simpl; intros H.
- discriminate.
- destruct (String.eqb_spec k k0) as [-> | Hk].
  + congruence.
  + f_equal. now apply IH.
Qed.

Lemma mem_true_iff k d : Dict.mem k d = true <-> has_key k d.
Proof.
  unfold Dict.mem, has_key. destruct (Dict.get k d); split; congruence.
Qed.
End DictFacts.

(* ================================================================== *)
(** * The grouping loop *)
(* ================================================================== *)

Section Grouping.
Implicit Types (versions : ledger) (version date : string).

Lemma subscript_ok (V : Type) k (d : Dict.t V) v :
  Dict.get k d = Some v -> Dict.subscript k d = Ok v.
Proof. unfold Dict.subscript. now intros ->. Qed.

Lemma get_date_ok version date versions dates l :
  Dict.get version versions = Some dates ->
  Dict.get date dates = Some l ->
  get_date versions version date = Ok l.
Proof.
  intros Hv Hd. unfold get_date.
  rewrite (subscript_ok _ _ _ _ Hv). simpl. now apply subscript_ok.
Qed.

Lemma set_date_ok version date versions dates l :
  Dict.get version versions = Some dates ->
  set_date versions version date l
  = Ok (Dict.set version (Dict.set date l dates) versions).
Proof.
  intros Hv. unfold set_date. now rewrite (subscript_ok _ _ _ _ Hv).
Qed.

(** Writing back what is already there changes nothing. *)
Lemma refile_id version date versions dates l :
  Dict.get version versions = Some dates ->
  Dict.get date dates = Some l ->
  Dict.set version (Dict.set date l dates) versions = versions.
Proof.
  intros Hv Hd. rewrite (set_get_id _ _ _ _ Hd). now apply set_get_id.
Qed.

Lemma append_unless_ok version date versions dates l check entry :
  Dict.get version versions = Some dates ->
  Dict.get date dates = Some l ->
  append_unless version date versions check entry
  = Ok (Dict.set version
          (Dict.set date (appended l check entry) dates) versions).
Proof.
  intros Hv Hd. unfold append_unless, appended.
  rewrite (get_date_ok _ _ _ _ _ Hv Hd). simpl.
  destruct (mem check l); simpl.
  - now rewrite (refile_id _ _ _ _ _ Hv Hd).
  - now apply set_date_ok.
Qed.

Lemma lines_ok version date lines : forall versions dates l,
  Dict.get version versions = Some dates ->
  Dict.get date dates = Some l ->
  for_each (fun vs line =>
              append_unless version date vs line (parse_message line))
           lines versions
  = Ok (Dict.set version
          (Dict.set date (add_lines l lines) dates) versions).
Proof.
  induction lines as [| line lines IH]; intros versions dates l Hv Hd; simpl.
  - now rewrite (refile_id _ _ _ _ _ Hv Hd).
  - rewrite (append_unless_ok _ _ _ _ _ _ _ Hv Hd). simpl.
    erewrite IH; [| apply get_set_same | apply get_set_same].
    now rewrite !set_set.
Qed.

(** The monadic loop body never raises from a keyed state, and its effect
    is [step]. *)
Lemma loop_body_step st c :
  has_key (fst st) (snd st) ->
  loop_body st c = Ok (step st c) /\ has_key (fst (step st c)) (snd (step st c)).
Proof.
  destruct st as [version versions]. simpl. intros Hkey.
  unfold loop_body, step. destruct (kept c); [| now split].
  simpl fst; simpl snd.
  assert (Hsw : has_key (fst (switch_version (msg c) version versions))
                        (snd (switch_version (msg c) version versions))).
  { unfold switch_version. destruct (contains "release" (msg c)); [| exact Hkey].
    destruct (release_match (msg c)); [| exact Hkey].
    simpl. unfold has_key. rewrite get_set_same. discriminate. }
  destruct (switch_version (msg c) version versions) as [v1 l1].
  simpl in Hsw. unfold has_key in Hsw.
  destruct (Dict.get v1 l1) as [dates |] eqn:Hv; [clear Hsw | congruence].
  rewrite (subscript_ok _ _ _ _ Hv). simpl.
  set (date := author_date c).
  assert (Hpre : exists l2,
             (if negb (Dict.mem date dates)
              then set_date l1 v1 date [] else Ok l1) = Ok l2
             /\ l2 = Dict.set v1 (Dict.set date (filed date dates) dates) l1).
  { unfold Dict.mem, filed. destruct (Dict.get date dates) as [l |] eqn:Hd; simpl.
    - exists l1. split; [reflexivity |]. symmetry. now apply refile_id.
    - exists (Dict.set v1 (Dict.set date [] dates) l1).
      split; [apply set_date_ok; exact Hv | reflexivity]. }
  destruct Hpre as (l2 & -> & ->). simpl.
  set (l0 := filed date dates).
  set (dates2 := Dict.set date l0 dates).
  assert (Hv2 : Dict.get v1 (Dict.set v1 dates2 l1) = Some dates2)
    by apply get_set_same.
  assert (Hd2 : Dict.get date dates2 = Some l0) by apply get_set_same.
  assert (Hfin : forall l,
             Dict.set v1 (Dict.set date l dates2) (Dict.set v1 dates2 l1)
             = Dict.set v1 (Dict.set date l dates) l1).
  { intros l. unfold dates2. now rewrite !set_set. }
  unfold contribute.
  destruct (version_search (msg c)); simpl.
  - split.
    + reflexivity.
    + unfold has_key. rewrite get_set_same. discriminate.
  - destruct (contains nl (msg c)).
    + rewrite (lines_ok _ _ _ _ _ _ Hv2 Hd2). simpl. rewrite Hfin. split; [reflexivity |].
      unfold has_key. simpl. rewrite get_set_same. discriminate.
    + rewrite (append_unless_ok _ _ _ _ _ _ _ Hv2 Hd2). simpl. rewrite Hfin.
      split; [reflexivity |].
      unfold has_key. simpl. rewrite get_set_same. discriminate.
Qed.

Lemma initial_keyed : has_key (fst initial_state) (snd initial_state).
Proof. unfold has_key. simpl. discriminate. Qed.

Lemma for_each_steps cs : forall st,
  has_key (fst st) (snd st) ->
  for_each loop_body cs st = Ok (fold_left step cs st)
  /\ has_key (fst (fold_left step cs st)) (snd (fold_left step cs st)).
Proof.
  induction cs as [| c cs IH]; intros st Hk; simpl.
  - now split.
  - destruct (loop_body_step _ c Hk) as [-> Hk']. simpl. now apply IH.
Qed.

Lemma run_commits_steps cs :
  run_commits cs = Ok (fold_left step cs initial_state).
Proof. apply for_each_steps, initial_keyed. Qed.

End Grouping.

(* ================================================================== *)
(** * The word patterns: [SKIP_WORDS] and [VERSION_WORDS] *)
(* ================================================================== *)

Section WordPatterns.

Lemma is_match_alt (a b : option (option string)) :
  is_match (match a with Some x => Some x | None => b end)
  = is_match a || is_match b.
Proof. now destruct a. Qed.

Lemma literal_is_match w : forall s g (k : string -> option string -> option (option string)),
  (forall s' g', is_match (k s' g') = true) ->
  is_match (run true (literal w) s g k)
  = startswith (lower_string w) (lower_string s).
Proof.
  induction w as [| c w IH]; intros s g k Hk; simpl.
  - rewrite Hk. now destruct s.
  - destruct s as [| a s]; simpl; [reflexivity |].
    unfold eqb_ci. destruct (Ascii.eqb (lower c) (lower a)); simpl.
    + now apply IH.
    + reflexivity.
Qed.

Lemma any_of_is_match ws : forall s g (k : string -> option string -> option (option string)),
  ws <> [] ->
  (forall s' g', is_match (k s' g') = true) ->
  is_match (run true (any_of ws) s g k)
  = existsb (fun w => startswith (lower_string w) (lower_string s)) ws.
Proof.
  induction ws as [| w ws IH]; intros s g k Hne Hk; [congruence |].
  destruct ws as [| w' ws].
  - simpl any_of. rewrite (literal_is_match w s g k Hk). simpl.
    now rewrite orb_false_r.
  - change (any_of (w :: w' :: ws)) with (Alt (literal w) (any_of (w' :: ws))).
    cbn [run]. rewrite is_match_alt, (literal_is_match w s g k Hk).
    rewrite (IH s g k); [reflexivity | discriminate | exact Hk].
Qed.

Lemma existsb_orb {A : Type} (f g : A -> bool) l :
  existsb (fun x => f x || g x) l = existsb f l || existsb g l.
Proof.
  induction l as [| x l IH]; simpl; [reflexivity |].
  rewrite IH. destruct (f x), (g x), (existsb f l); reflexivity.
Qed.

Lemma existsb_eq {A : Type} (f g : A -> bool) l :
  (forall x, f x = g x) -> existsb f l = existsb g l.
Proof.
  intros H. induction l as [| x l IH]; simpl; [reflexivity |].
  now rewrite H, IH.
Qed.

Lemma existsb_never {A : Type} (l : list A) : existsb (fun _ => false) l = false.
Proof. induction l; simpl; auto. Qed.

(** Searching an alternation of words is a case-blind substring test. *)
Lemma search_any_of ws m :
  ws <> [] ->
  is_match (re_search true (any_of ws) m)
  = existsb (fun w => contains_ci w m) ws.
Proof.
  intros Hne. unfold contains_ci.
  induction m as [| a m IH].
  - simpl re_search. unfold re_match.
    rewrite is_match_alt, any_of_is_match; auto.
    rewrite (existsb_eq
               (fun w => contains (lower_string w) (lower_string ""))
               (fun w => startswith (lower_string w) (lower_string "") || false))
      by reflexivity.
    now rewrite existsb_orb, existsb_never.
  - cbn [re_search]. unfold re_match at 1.
    rewrite is_match_alt, any_of_is_match; auto.
    rewrite IH, <- existsb_orb.
    apply existsb_eq. intros w. reflexivity.
Qed.

Lemma skip_search_words m :
  skip_search m = existsb (fun w => contains_ci w m) SKIP_WORDS.
Proof. apply search_any_of. discriminate. Qed.

Lemma version_search_words m :
  version_search m = existsb (fun w => contains_ci w m) VERSION_WORDS.
Proof. apply search_any_of. discriminate. Qed.

End WordPatterns.

(* ================================================================== *)
(** * Skipped commits and keyed lookups *)
(* ================================================================== *)

Section SkipAndKeys.

Lemma for_each_app {A S : Type} (body : S -> A -> result S) xs ys : forall s,
  for_each body (xs ++ ys) s = (s' <- for_each body xs s ;; for_each body ys s').
Proof.
  induction xs as [| x xs IH]; intros s; simpl; [reflexivity |].
  destruct (body s x); simpl; [apply IH | reflexivity].
Qed.

Lemma skipped_not_kept c :
  (exists w, In w SKIP_WORDS /\ contains_ci w (msg c) = true)
  \/ in_main_branch c = false ->
  kept c = false.
Proof.
  unfold kept. intros [(w & Hin & Hw) | Hb].
  - rewrite skip_search_words.
    assert (E : existsb (fun w => contains_ci w (msg c)) SKIP_WORDS = true)
      by (apply existsb_exists; eauto).
    now rewrite E.
  - rewrite Hb. apply andb_false_r.
Qed.

Lemma kept_not_skipped c :
  kept c = true ->
  (forall w, In w SKIP_WORDS -> contains_ci w (msg c) = false)
  /\ in_main_branch c = true.
Proof.
  unfold kept. rewrite skip_search_words. intros H.
  apply andb_prop in H. destruct H as [Hs Hb]. split; [| exact Hb].
  intros w Hin. destruct (contains_ci w (msg c)) eqn:E; [| reflexivity].
  assert (X : existsb (fun w => contains_ci w (msg c)) SKIP_WORDS = true)
    by (apply existsb_exists; eauto).
  rewrite X in Hs. discriminate.
Qed.

Lemma loop_body_skip st c : kept c = false -> loop_body st c = Ok st.
Proof. destruct st. unfold loop_body. now intros ->. Qed.

(** C1. A commit whose message matches one of the skip markers, whatever
    the case of its letters, or that is off the primary branch, leaves the
    state of the grouping loop as it found it.  The ledger built from a
    list of commits is therefore the ledger built from the list without
    that commit: it adds no entry and no date bucket. *)
Theorem skipped_commit_contributes_nothing (pre post : list Commit) (c : Commit) :
  (exists w, In w SKIP_WORDS /\ contains_ci w (msg c) = true)
  \/ in_main_branch c = false ->
  (forall st, loop_body st c = Ok st)
  /\ run_commits (pre ++ c :: post) = run_commits (pre ++ post)
  /\ parse_commits (pre ++ c :: post) = parse_commits (pre ++ post).
Proof.
  intros H. apply skipped_not_kept in H.
  assert (Hrun : run_commits (pre ++ c :: post) = run_commits (pre ++ post)).
  { unfold run_commits. rewrite !for_each_app.
    destruct (for_each loop_body pre initial_state) as [st |]; simpl.
    - now rewrite (loop_body_skip st c H).
    - reflexivity. }
  split; [| split].
  - intros st. now apply loop_body_skip.
  - exact Hrun.
  - unfold parse_commits. now rewrite Hrun.
Qed.

Lemma skipped_commit_contributes_nothing_witness :
  parse_commits ([mkCommit "add parser" "2024-01-01" true]
                 ++ mkCommit "WIP: half done" "2024-01-02" true
                 :: [mkCommit "fix lexer" "2024-01-03" true])
  = parse_commits ([mkCommit "add parser" "2024-01-01" true]
                   ++ [mkCommit "fix lexer" "2024-01-03" true]).
Proof.
  apply (skipped_commit_contributes_nothing
           [mkCommit "add parser" "2024-01-01" true]
           [mkCommit "fix lexer" "2024-01-03" true]
           (mkCommit "WIP: half done" "2024-01-02" true)).
  left. exists "wip". split; [simpl; tauto | reflexivity].
Defined.

(** C10. The current version is a key of the ledger at every step of the
    grouping.  The loop starts from ["0.0.0"] keyed to an empty bucket; the
    release test either leaves version and ledger alone or sets the new
    label to a fresh empty bucket in the same move; and after any prefix of
    any commit list the loop has returned a state whose version is keyed,
    from which the next iteration returns again without [KeyError].  So
    [parse_commits] returns a ledger for every commit list. *)
Theorem current_version_always_keyed (commits : list Commit) :
  initial_state = ("0.0.0", [("0.0.0", [])])
  /\ (forall m version versions v' versions',
        switch_version m version versions = (v', versions') ->
        (v' = version /\ versions' = versions)
        \/ (versions' = Dict.set v' [] versions
            /\ Dict.get v' versions' = Some []))
  /\ (forall pre post, commits = pre ++ post ->
        exists version versions,
          run_commits pre = Ok (version, versions)
          /\ has_key version versions
          /\ forall c, exists st',
               loop_body (version, versions) c = Ok st'
               /\ has_key (fst st') (snd st'))
  /\ exists versions, parse_commits commits = Ok versions.
Proof.
  split; [reflexivity |]. split; [| split].
  - intros m version versions v' versions'. unfold switch_version.
    destruct (contains "release" m).
    + destruct (release_match m) as [v |]; intros E; inversion E; subst.
      * right. split; [reflexivity | apply get_set_same].
      * now left.
    + intros E; inversion E; subst. now left.
  - intros pre post _.
    destruct (for_each_steps pre initial_state initial_keyed) as [Hrun Hkey].
    destruct (fold_left step pre initial_state) as [version versions] eqn:E.
    exists version, versions. split; [exact Hrun |]. split; [exact Hkey |].
    intros c. exists (step (version, versions) c).
    now apply loop_body_step.
  - unfold parse_commits. rewrite run_commits_steps. simpl. eauto.
Qed.

End SkipAndKeys.

(* ================================================================== *)
(** * The current version along the traversal *)
(* ================================================================== *)

Section CurrentVersion.
Implicit Types (st : (string * ledger)%type) (c : Commit) (cs : list Commit).

Lemma switch_unmarked c version versions :
  kept c = true -> is_marker c = false ->
  switch_version (msg c) version versions = (version, versions).
Proof.
  unfold is_marker, switch_version. intros -> H. simpl in H.
  destruct (contains "release" (msg c)); [| reflexivity].
  destruct (release_match (msg c)); [discriminate | reflexivity].
Qed.

Lemma switch_marked c version versions :
  is_marker c = true ->
  exists v, release_match (msg c) = Some v
            /\ switch_version (msg c) version versions
               = (v, Dict.set v [] versions).
Proof.
  unfold is_marker, switch_version. intros H.
  apply andb_prop in H. destruct H as [H Hm].
  apply andb_prop in H. destruct H as [_ ->].
  destruct (release_match (msg c)) as [v |]; [| discriminate].
  exists v. now split.
Qed.


Lemma step_version_unmarked st c :
  is_marker c = false -> fst (step st c) = fst st.
Proof.
  intros Hm. unfold step. destruct (kept c) eqn:Hk; [| reflexivity].
  rewrite (switch_unmarked c _ _ Hk Hm).
  now destruct (Dict.get (fst st) (snd st)).
Qed.

Lemma step_version_marked st c :
  is_marker c = true ->
  exists v, release_match (msg c) = Some v /\ fst (step st c) = v.
Proof.
  intros Hm. destruct (switch_marked c (fst st) (snd st) Hm) as (v & Hr & Hs).
  exists v. split; [exact Hr |]. unfold step.
  assert (Hk : kept c = true).
  { unfold is_marker in Hm. now destruct (kept c). }
  rewrite Hk, Hs. cbv beta iota. now rewrite get_set_same.
Qed.

(** An iteration writes under the version it ends with and nowhere else. *)
Lemma step_frame st c k :
  k <> fst (step st c) ->
  Dict.get k (snd (step st c)) = Dict.get k (snd st).
Proof.
  unfold step. destruct (kept c); [| reflexivity].
  assert (Hsw : forall v1 l1,
             switch_version (msg c) (fst st) (snd st) = (v1, l1) ->
             k <> v1 -> Dict.get k l1 = Dict.get k (snd st)).
  { unfold switch_version. intros v1 l1.
    destruct (contains "release" (msg c)).
    - destruct (release_match (msg c)); intros E Hk; inversion E; subst;
        [now apply get_set_other | reflexivity].
    - intros E _. now inversion E. }
  destruct (switch_version (msg c) (fst st) (snd st)) as [v1 l1].
  specialize (Hsw v1 l1 eq_refl).
  destruct (Dict.get v1 l1); simpl; intros Hk.
  - rewrite get_set_other by exact Hk. now apply Hsw.
  - now apply Hsw.
Qed.



(** Without a marker the version stays and no key is added. *)
Lemma steps_unmarked cs : forall st,
  has_key (fst st) (snd st) ->
  (forall c, In c cs -> is_marker c = false) ->
  fst (fold_left step cs st) = fst st
  /\ Dict.keys (snd (fold_left step cs st)) = Dict.keys (snd st).
Proof.
  induction cs as [| c cs IH]; intros st Hkey Hall; simpl; [now split |].
  assert (Hm : is_marker c = false) by (apply Hall; now left).
  assert (Hstep : fst (step st c) = fst st
                  /\ Dict.keys (snd (step st c)) = Dict.keys (snd st)).
  { split; [now apply step_version_unmarked |].
    unfold step. destruct (kept c) eqn:Hk; [| reflexivity].
    rewrite (switch_unmarked c _ _ Hk Hm).
    unfold has_key in Hkey.
    destruct (Dict.get (fst st) (snd st)) eqn:E; [| reflexivity].
    simpl. apply keys_set_present. unfold has_key. congruence. }
  destruct Hstep as [Hv Hks].
  destruct (IH (step st c)) as [Hv' Hks'].
  - apply (proj2 (loop_body_step st c Hkey)).
  - intros c' Hin. apply Hall. now right.
  - split; congruence.
Qed.





End CurrentVersion.

(* ================================================================== *)
(** * The entry of the default version *)
(* ================================================================== *)

Section DefaultVersion.

Lemma parse_commits_steps cs :
  parse_commits cs = Ok (snd (fold_left step cs initial_state)).
Proof. unfold parse_commits. now rewrite run_commits_steps. Qed.




End DefaultVersion.

(* ================================================================== *)
(** * Greedy iteration and the two anchored patterns *)
(* ================================================================== *)

Section Patterns.
Implicit Types (s a b : string) (p : ascii -> bool).


Lemma length_app_s a b : length (a ++ b) = length a + length b.
Proof. induction a; simpl; congruence. Qed.

Lemma take_drop_while p s : (take_while p s ++ drop_while p s)%string = s.
Proof.
  induction s as [| c s IH]; simpl; [reflexivity |].
  destruct (p c); simpl; congruence.
Qed.

Lemma take_while_all p s : all_chars p (take_while p s) = true.
Proof.
  induction s as [| c s IH]; simpl; [reflexivity |].
  destruct (p c) eqn:E; simpl; [now rewrite E |reflexivity].
Qed.

Lemma drop_while_stops p s : starts_with p (drop_while p s) = false.
Proof.
  induction s as [| c s IH]; simpl; [reflexivity |].
  destruct (p c) eqn:E; simpl; assumption.
Qed.

Lemma take_while_app p a s :
  all_chars p a = true -> starts_with p s = false ->
  take_while p (a ++ s) = a.
Proof.
  induction a as [| c a IH]; simpl; intros Ha Hs.
  - destruct s; simpl in *; [reflexivity | now rewrite Hs].
  - apply andb_prop in Ha. destruct Ha as [-> Ha]. now rewrite IH.
Qed.

Lemma consumed_app a b : consumed (a ++ b) b = a.
Proof.
  unfold consumed. rewrite length_app_s.
  replace (length a + length b - length b) with (length a) by lia.
  induction a as [| c a IH]; simpl.
  - now destruct b.
  - now rewrite IH.
Qed.

Variable R : Type.
Implicit Types (k : string -> option R).

(** A continuation that cannot fail gets the longest run. *)
Lemma star_greedy p k s :
  (forall b, k b <> None) -> star p s k = k (drop_while p s).
Proof.
  intros Hk. induction s as [| c s IH]; simpl; [reflexivity |].
  destruct (p c); [| reflexivity].
  rewrite IH. destruct (k (drop_while p s)) eqn:E; [reflexivity |].
  now apply Hk in E.
Qed.

Lemma star_const p s (x : R) : star p s (fun _ => Some x) = Some x.
Proof. rewrite star_greedy; [reflexivity | discriminate]. Qed.

(** A result comes from the continuation, run after a prefix of [p]s. *)
Lemma star_sound p k s r :
  star p s k = Some r ->
  exists a b, s = (a ++ b)%string /\ all_chars p a = true /\ k b = Some r.
Proof.
  induction s as [| c s IH]; simpl; intros H.
  - exists "", "". auto.
  - destruct (p c) eqn:Hc.
    + destruct (star p s k) as [r' |] eqn:Hs.
      * destruct (IH H) as (a & b & -> & Ha & Hb).
        exists (String c a), b. simpl. now rewrite Hc.
      * exists "", (String c s). auto.
    + exists "", (String c s). auto.
Qed.

(** What succeeds after a prefix of [p]s succeeds from the start. *)
Lemma star_found p k a s r :
  all_chars p a = true -> star p s k = Some r ->
  star p (a ++ s) k = Some r.
Proof.
  induction a as [| c a IH]; simpl; intros Ha Hs; [exact Hs |].
  apply andb_prop in Ha. destruct Ha as [-> Ha]. now rewrite IH.
Qed.

End Patterns.

(* ================================================================== *)
(** * The issue pattern *)
(* ================================================================== *)

Section IssuePattern.

(** The pattern after its leading [.*], tried at one position. *)
Lemma issue_here s :
  run false (Cat (Group (Cat (One (Chr "#")) (Plus (Cls is_digit)))) (Star Dot))
      s None (fun _ g => Some g)
  = match s with
    | String c s1 =>
        if token_start s
        then Some (Some (String "#" (take_while is_digit s1)))
        else None
    | EmptyString => None
    end.
Proof.
  destruct s as [| c s1]; [reflexivity |].
  cbn [run accepts eqb_ci token_start].
  destruct (Ascii.eqb_spec "#" c) as [<- | Hc]; [| reflexivity].
  destruct s1 as [| d s2]; [reflexivity |].
  cbn [starts_with andb]. destruct (is_digit d) eqn:Hd; [| reflexivity].
  rewrite star_greedy by (intros b; rewrite star_const; discriminate).
  rewrite star_const. do 2 f_equal.
  set (s2' := drop_while is_digit s2).
  assert (E : String "#" (String d s2)
              = (String "#" (String d (take_while is_digit s2)) ++ s2')%string).
  { simpl. unfold s2'. now rewrite take_drop_while. }
  rewrite E at 1. rewrite consumed_app.
  simpl. now rewrite Hd.
Qed.

Lemma issue_match_unfold m :
  re_match false issue_regexp m
  = star not_newline m
      (fun s => run false
                  (Cat (Group (Cat (One (Chr "#")) (Plus (Cls is_digit))))
                       (Star Dot))
                  s None (fun _ g => Some g)).
Proof. reflexivity. Qed.

Lemma no_token_no_match m :
  token_on_line m = false -> re_match false issue_regexp m = None.
Proof.
  rewrite issue_match_unfold.
  induction m as [| c m IH]; intros H.
  - reflexivity.
  - cbn [star]. cbn [token_on_line] in H. unfold not_newline at 1.
    destruct (Ascii.eqb c newline) eqn:Hc; cbn [negb].
    + rewrite issue_here. cbn [token_start].
      destruct (Ascii.eqb_spec "#" c) as [<- | _]; [discriminate Hc | reflexivity].
    + apply orb_false_elim in H. destruct H as [Ht Hl].
      rewrite (IH Hl), issue_here. now rewrite Ht.
Qed.

Lemma digits_no_token ds post :
  all_chars is_digit ds = true -> token_on_line post = false ->
  token_on_line (ds ++ post) = false.
Proof.
  induction ds as [| d ds IH];
    cbn [append all_chars token_on_line token_start]; intros Hd Hp;
    [exact Hp |].
  apply andb_prop in Hd. destruct Hd as [Hd Hds].
  destruct (Ascii.eqb d newline); [reflexivity |].
  rewrite (IH Hds Hp), orb_false_r.
  destruct (Ascii.eqb_spec "#" d) as [<- | _]; [discriminate Hd | reflexivity].
Qed.

(** The group captures the last token of the first line, with all its
    digits. *)
Lemma issue_of_last_token pre ds post :
  all_chars not_newline pre = true ->
  ds <> "" -> all_chars is_digit ds = true ->
  starts_with is_digit post = false ->
  token_on_line post = false ->
  issue_of (pre ++ String "#" ds ++ post) = String "#" ds.
Proof.
  intros Hpre Hne Hds Hpost Hline. unfold issue_of.
  rewrite issue_match_unfold.
  rewrite (star_found _ not_newline _ pre _ (Some (String "#" ds)) Hpre);
    [reflexivity |].
  cbn [append star]. change (not_newline "#") with true. cbv iota.
  rewrite <- issue_match_unfold.
  rewrite (no_token_no_match _ (digits_no_token ds post Hds Hline)).
  rewrite issue_here. cbn [token_start].
  destruct ds as [| d ds]; [congruence |].
  cbn [append starts_with all_chars] in *.
  apply andb_prop in Hds. destruct Hds as [Hd Hds]. rewrite Hd.
  change (Ascii.eqb "#" "#") with true. cbn [andb]. do 3 f_equal.
  change (String d (ds ++ post)) with (String d ds ++ post)%string.
  apply take_while_app; [simpl; now rewrite Hd | exact Hpost].
Qed.

Lemma issue_of_no_token m : token_on_line m = false -> issue_of m = "".
Proof. intros H. unfold issue_of. now rewrite no_token_no_match. Qed.

Lemma issue_group_takes_part m :
  re_match false issue_regexp m <> Some None.
Proof.
  rewrite issue_match_unfold. intros H.
  apply star_sound in H. destruct H as (pre & b & _ & _ & Hb).
  rewrite issue_here in Hb. destruct b as [| c s1]; [discriminate |].
  destruct (token_start (String c s1)); discriminate.
Qed.

End IssuePattern.

(* ================================================================== *)
(** * Issue extraction in [parse_message] *)
(* ================================================================== *)

Section IssueExtraction.

(** C5, as amended.  When the first line of a message holds a [#] followed
    by digits, the classifier takes the last such token of that line, with
    all its digits; it removes every occurrence of the token's text from
    the message, turns every space-colon into a colon, and appends
    [" (Related to issue: #NNNN)"]; the category rules then run on the
    result.  A message whose first line holds no such token goes to the
    category rules as it is. *)
Theorem issue_extraction_takes_last_token (pre ds post : string) :
  all_chars not_newline pre = true ->
  ds <> "" -> all_chars is_digit ds = true ->
  starts_with is_digit post = false ->
  token_on_line post = false ->
  let tok := String "#" ds in
  let m := (pre ++ tok ++ post)%string in
  issue_of m = tok
  /\ extract_issue m
     = (replace " :" ":" (replace tok "" m) ++ issue_suffix tok)%string
  /\ parse_message m
     = rewrite_categories
         (replace " :" ":" (replace tok "" m) ++ issue_suffix tok)%string
  /\ (forall m', token_on_line m' = false ->
                 extract_issue m' = m' /\ parse_message m' = rewrite_categories m').
Proof.
  intros Hpre Hne Hds Hpost Hline tok m.
  assert (Hi : issue_of m = tok) by now apply issue_of_last_token.
  assert (He : extract_issue m
               = (replace " :" ":" (replace tok "" m) ++ issue_suffix tok)%string).
  { unfold extract_issue. rewrite Hi. reflexivity. }
  split; [exact Hi |]. split; [exact He |]. split.
  - unfold parse_message. now rewrite He.
  - intros m' H'.
    assert (He' : extract_issue m' = m').
    { unfold extract_issue. now rewrite (issue_of_no_token m' H'). }
    split; [exact He' |]. unfold parse_message. now rewrite He'.
Qed.

Lemma issue_extraction_takes_last_token_witness :
  extract_issue "see #7, fix : login bug #42 again"
  = "see #7, fix: login bug  again (Related to issue: #42)".
Proof.
  refine (proj1 (proj2 (issue_extraction_takes_last_token
                          "see #7, fix : login bug " "42" " again"
                          eq_refl _ eq_refl eq_refl eq_refl))).
  discriminate.
Defined.

(** C5 as it is worded fails: with two tokens on the line the first one
    stays in the text and the second one is named in the suffix; and a
    token that stands behind a newline is not seen at all. *)
Lemma first_token_is_not_taken :
  first_token "#1 #2" = Some "#1"
  /\ extract_issue "#1 #2" = "#1  (Related to issue: #2)"
  /\ extract_issue "#1 #2"
     <> (replace " :" ":" (replace "#1" "" "#1 #2") ++ issue_suffix "#1")%string
  /\ first_token ("see" ++ nl ++ "#5") = Some "#5"
  /\ extract_issue ("see" ++ nl ++ "#5") = ("see" ++ nl ++ "#5")%string.
Proof.
  split; [reflexivity |]. split; [reflexivity |].
  split; [vm_compute; discriminate |].
  split; reflexivity.
Qed.

Example parse_message_fix_login :
  parse_message "fix: login bug #42"
  = "Fix: login bug  (Related to issue: #42)".
Proof. vm_compute. reflexivity. Qed.

End IssueExtraction.

(* ================================================================== *)
(** * The release pattern *)
(* ================================================================== *)

Section ReleasePattern.

(** The group and what follows it, tried at one position. *)
Lemma run_group_here s :
  run false (Cat (Group (Plus (Cls digit_or_dot))) (Star Dot))
      s None (fun _ g => Some g)
  = if starts_with digit_or_dot s
    then Some (Some (take_while digit_or_dot s))
    else None.
Proof.
  destruct s as [| d s1]; [reflexivity |].
  cbn [run accepts starts_with]. destruct (digit_or_dot d) eqn:Hd; [| reflexivity].
  rewrite star_greedy by (intros b; rewrite star_const; discriminate).
  rewrite star_const. do 2 f_equal.
  assert (E : String d s1
              = (String d (take_while digit_or_dot s1)
                 ++ drop_while digit_or_dot s1)%string).
  { simpl. now rewrite take_drop_while. }
  rewrite E at 1. rewrite consumed_app. simpl. now rewrite Hd.
Qed.

Lemma release_match_unfold m :
  re_match false release_regexp m
  = star not_newline m
      (fun s =>
         match s with
         | String c s1 =>
             if Ascii.eqb c "/" then
               match s1 with
               | String x s2 =>
                   if Ascii.eqb "v" x then
                     match run false
                             (Cat (Group (Plus (Cls digit_or_dot))) (Star Dot))
                             s2 None (fun _ g => Some g) with
                     | Some r => Some r
                     | None =>
                         run false
                           (Cat (Group (Plus (Cls digit_or_dot))) (Star Dot))
                           s1 None (fun _ g => Some g)
                     end
                   else
                     run false
                       (Cat (Group (Plus (Cls digit_or_dot))) (Star Dot))
                       s1 None (fun _ g => Some g)
               | EmptyString =>
                   run false
                     (Cat (Group (Plus (Cls digit_or_dot))) (Star Dot))
                     s1 None (fun _ g => Some g)
               end
             else None
         | EmptyString => None
         end).
Proof. reflexivity. Qed.

Lemma group_here_shape s v :
  (if starts_with digit_or_dot s
   then Some (Some (take_while digit_or_dot s)) else None) = Some (Some v) ->
  exists post, s = (v ++ post)%string
               /\ v <> "" /\ all_chars digit_or_dot v = true
               /\ starts_with digit_or_dot post = false.
Proof.
  destruct (starts_with digit_or_dot s) eqn:Hs; [| discriminate].
  intros E. inversion E; subst. exists (drop_while digit_or_dot s).
  split; [symmetry; apply take_drop_while |]. split; [| split].
  - destruct s as [| d s]; simpl in *; [discriminate |]. now rewrite Hs.
  - apply take_while_all.
  - apply drop_while_stops.
Qed.

(** A captured version is a run of digits and dots, as long as it can be,
    standing on the first line behind a slash and an optional [v]. *)
Lemma release_match_shape m v :
  release_match m = Some v ->
  exists pre opt post,
    m = (pre ++ String "/" (opt ++ v ++ post))%string
    /\ all_chars not_newline pre = true
    /\ (opt = "" \/ opt = "v")
    /\ v <> "" /\ all_chars digit_or_dot v = true
    /\ starts_with digit_or_dot post = false.
Proof.
  unfold release_match. rewrite release_match_unfold.
  destruct (star not_newline m _) as [[g |] |] eqn:Hstar; try discriminate.
  intros E. inversion E; subst g. clear E.
  apply star_sound in Hstar. destruct Hstar as (pre & b & -> & Hpre & Hb).
  destruct b as [| c s1]; [discriminate |].
  destruct (Ascii.eqb_spec c "/") as [-> | _]; [| discriminate].
  assert (Hplain : forall s, s1 = s ->
             run false (Cat (Group (Plus (Cls digit_or_dot))) (Star Dot))
                 s None (fun _ g => Some g) = Some (Some v) ->
             exists pre0 opt post,
               (pre ++ String "/" s1)%string
               = (pre0 ++ String "/" (opt ++ v ++ post))%string
               /\ all_chars not_newline pre0 = true
               /\ (opt = "" \/ opt = "v")
               /\ v <> "" /\ all_chars digit_or_dot v = true
               /\ starts_with digit_or_dot post = false).
  { intros s -> H. rewrite run_group_here in H.
    destruct (group_here_shape _ _ H) as (post & -> & Hv).
    exists pre, "", post. repeat split; auto; apply Hv. }
  destruct s1 as [| x s2]; [now apply (Hplain "") |].
  destruct (Ascii.eqb_spec "v" x) as [<- | _]; [| now apply (Hplain (String x s2))].
  destruct (run false (Cat (Group (Plus (Cls digit_or_dot))) (Star Dot))
                s2 None (fun _ g => Some g)) as [r |] eqn:H2.
  - inversion Hb; subst r. rewrite run_group_here in H2.
    destruct (group_here_shape _ _ H2) as (post & -> & Hv).
    exists pre, "v", post. repeat split; auto; apply Hv.
  - now apply (Hplain (String "v" s2)).
Qed.

(** The group takes part in every match, so [group(1)] is a string. *)
Lemma release_group_takes_part m :
  re_match false release_regexp m <> Some None.
Proof.
  rewrite release_match_unfold. intros H.
  apply star_sound in H. destruct H as (pre & b & _ & _ & Hb).
  assert (Hg : forall s,
             run false (Cat (Group (Plus (Cls digit_or_dot))) (Star Dot))
                 s None (fun _ g => Some g) <> Some None).
  { intros s. rewrite run_group_here.
    destruct (starts_with digit_or_dot s); discriminate. }
  destruct b as [| c s1]; [discriminate |].
  destruct (Ascii.eqb c "/"); [| discriminate].
  destruct s1 as [| x s2]; [now apply Hg in Hb |].
  destruct (Ascii.eqb "v" x); [| now apply Hg in Hb].
  destruct (run false (Cat (Group (Plus (Cls digit_or_dot))) (Star Dot))
                s2 None (fun _ g => Some g)) as [r |] eqn:H2.
  - inversion Hb; subst r. now apply Hg in H2.
  - now apply Hg in Hb.
Qed.

End ReleasePattern.

(* ================================================================== *)
(** * Release markers *)
(* ================================================================== *)

Section ReleaseMarkers.
Implicit Types (st : (string * ledger)%type) (c : Commit) (cs : list Commit).

(** Commits that do not switch the version are filed, one after the other,
    in the bucket of the version that is current. *)
Lemma steps_same_version cs : forall st dates,
  Dict.get (fst st) (snd st) = Some dates ->
  (forall c, In c cs -> is_marker c = false) ->
  fst (fold_left step cs st) = fst st
  /\ Dict.get (fst st) (snd (fold_left step cs st))
     = Some (fold_left file_commit cs dates)
  /\ (forall k, k <> fst st ->
                Dict.get k (snd (fold_left step cs st)) = Dict.get k (snd st)).
Proof.
  induction cs as [| c cs IH]; intros st dates Hd Hall; simpl.
  - now repeat split.
  - assert (Hm : is_marker c = false) by (apply Hall; now left).
    assert (Hv : fst (step st c) = fst st) by now apply step_version_unmarked.
    assert (Hg : Dict.get (fst (step st c)) (snd (step st c))
                 = Some (file_commit dates c)).
    { rewrite Hv. unfold step, file_commit.
      destruct (kept c) eqn:Hk; [| exact Hd].
      rewrite (switch_unmarked c _ _ Hk Hm), Hd. simpl. apply get_set_same. }
    destruct (IH (step st c) (file_commit dates c) Hg) as (H1 & H2 & H3).
    + intros c' Hin. apply Hall. now right.
    + rewrite Hv in H1, H2, H3. split; [exact H1 |]. split; [exact H2 |].
      intros k Hk. rewrite (H3 k Hk). apply step_frame. congruence.
Qed.

(** The effect of the release test, read off its own result: on a capture
    the captured text becomes the version under a fresh empty entry, the
    iteration ends with that entry holding the commit's date only, and the
    commits that follow without switching the version are filed there;
    without a capture the version stays. *)
Lemma release_test_effect c version (versions : ledger) :
  has_key version versions ->
  kept c = true ->
  contains "release" (msg c) = true ->
  match release_match (msg c) with
  | Some v =>
      (exists pre opt post,
          msg c = (pre ++ String "/" (opt ++ v ++ post))%string
          /\ all_chars not_newline pre = true
          /\ (opt = "" \/ opt = "v")
          /\ v <> "" /\ all_chars digit_or_dot v = true
          /\ starts_with digit_or_dot post = false)
      /\ switch_version (msg c) version versions
         = (v, Dict.set v [] versions)
      /\ exists versions',
          loop_body (version, versions) c = Ok (v, versions')
          /\ Dict.get v versions'
             = Some [(author_date c, contribute [] (msg c))]
          /\ (forall k, k <> v ->
                        Dict.get k versions' = Dict.get k versions)
          /\ forall cs,
               (forall c', In c' cs -> is_marker c' = false) ->
               exists versions'',
                 for_each loop_body cs (v, versions') = Ok (v, versions'')
                 /\ Dict.get v versions''
                    = Some (fold_left file_commit cs
                              [(author_date c, contribute [] (msg c))])
                 /\ (forall k, k <> v ->
                               Dict.get k versions'' = Dict.get k versions')
  | None =>
      exists versions', loop_body (version, versions) c = Ok (version, versions')
  end.
Proof.
  intros Hkey Hk Hrel.
  destruct (loop_body_step (version, versions) c Hkey) as [Hbody Hkey'].
  destruct (release_match (msg c)) as [v |] eqn:Hm.
  - assert (Hsw : switch_version (msg c) version versions
                  = (v, Dict.set v [] versions)).
    { unfold switch_version. now rewrite Hrel, Hm. }
    assert (Hstep : step (version, versions) c
                    = (v, Dict.set v
                            [(author_date c, contribute [] (msg c))]
                            (Dict.set v [] versions))).
    { unfold step. rewrite Hk. simpl fst; simpl snd. rewrite Hsw.
      cbv beta iota. now rewrite get_set_same. }
    split; [now apply release_match_shape |]. split; [exact Hsw |].
    exists (snd (step (version, versions) c)).
    rewrite Hbody, Hstep. simpl snd.
    split; [reflexivity |]. split; [apply get_set_same |]. split.
    + intros k Hne. now rewrite !get_set_other.
    + intros cs Hall.
      set (st1 := (v, Dict.set v [(author_date c, contribute [] (msg c))]
                        (Dict.set v [] versions))).
      assert (Hk1 : has_key (fst st1) (snd st1)).
      { unfold has_key, st1. simpl. rewrite get_set_same. discriminate. }
      destruct (for_each_steps cs st1 Hk1) as [Hrun _].
      destruct (steps_same_version cs st1
                  [(author_date c, contribute [] (msg c))]
                  (get_set_same _ _ _ _) Hall) as (H1 & H2 & H3).
      exists (snd (fold_left step cs st1)).
      split; [| split].
      * etransitivity; [exact Hrun |]. f_equal.
        destruct (fold_left step cs st1) as [v' l']. simpl in H1 |- *.
        now rewrite H1.
      * exact H2.
      * exact H3.
  - exists (snd (step (version, versions) c)).
    rewrite Hbody. f_equal.
    assert (Hv : fst (step (version, versions) c) = version).
    { apply (step_version_unmarked (version, versions) c).
      unfold is_marker. rewrite Hm. apply andb_false_r. }
    destruct (step (version, versions) c) as [v' l']. simpl in Hv |- *.
    now rewrite Hv.
Qed.

End ReleaseMarkers.

(* ================================================================== *)
(** * [sorted] *)
(* ================================================================== *)

Section SortedFacts.
Variable A : Type.
Variable key : A -> string.
Variable reverse : bool.

Lemma before_total x y :
  before key reverse x y = false -> before key reverse y x = true.
Proof.
  unfold before. destruct reverse; intros H.
  - destruct (String.leb_total (key x) (key y)); congruence.
  - destruct (String.leb_total (key x) (key y)); congruence.
Qed.

Lemma insert_perm x l : Permutation (insert key reverse x l) (x :: l).
Proof.
  induction l as [| y l IH]; simpl; [reflexivity |].
  destruct (before key reverse x y); [reflexivity |].
  rewrite IH. apply perm_swap.
Qed.

Lemma sorted_perm l : Permutation (sorted key reverse l) l.
Proof.
  induction l as [| x l IH]; simpl; [reflexivity |].
  rewrite insert_perm. now constructor.
Qed.

Lemma insert_hd x y l :
  before key reverse y x = true ->
  HdRel (fun a b => before key reverse a b = true) y l ->
  HdRel (fun a b => before key reverse a b = true) y (insert key reverse x l).
Proof.
  intros Hyx Hl. destruct l as [| z l]; simpl.
  - now constructor.
  - destruct (before key reverse x z); constructor; auto.
    now inversion Hl.
Qed.

Lemma insert_sorted x l :
  Sorted (fun a b => before key reverse a b = true) l ->
  Sorted (fun a b => before key reverse a b = true) (insert key reverse x l).
Proof.
  induction 1 as [| y l Hs IH Hhd]; simpl.
  - repeat constructor.
  - destruct (before key reverse x y) eqn:E.
    + constructor; [now constructor | now constructor].
    + constructor; [exact IH |].
      apply insert_hd; [now apply before_total | exact Hhd].
Qed.

Lemma sorted_sorted l :
  Sorted (fun a b => before key reverse a b = true) (sorted key reverse l).
Proof.
  induction l as [| x l IH]; simpl; [constructor | now apply insert_sorted].
Qed.

End SortedFacts.

(* ================================================================== *)
(** * What the renderer emits *)
(* ================================================================== *)

Section Rendering.
Variable bp : string.

Lemma date_body_grouped (dates : bucket) st d :
  out (date_body bp true dates st d)
  = out st ++ date_lines bp d (filed d dates)
  /\ combined_messages (date_body bp true dates st d) = combined_messages st
  /\ last_date (date_body bp true dates st d) = d.
Proof.
  unfold date_body, date_lines, filed.
  destruct (Nat.ltb 0 (List.length
                         match Dict.get d dates with Some l => l | None => [] end));
    simpl; auto.
Qed.

Lemma dates_grouped (dates : bucket) ds : forall st,
  out (fold_left (date_body bp true dates) ds st)
  = out st ++ flat_map (fun d => date_lines bp d (filed d dates)) ds
  /\ combined_messages (fold_left (date_body bp true dates) ds st)
     = combined_messages st.
Proof.
  induction ds as [| d ds IH]; intros st; cbn [fold_left flat_map].
  - now rewrite !app_nil_r.
  - destruct (IH (date_body bp true dates st d)) as [-> ->].
    destruct (date_body_grouped dates st d) as (-> & -> & _).
    now rewrite app_assoc.
Qed.

Lemma dates_combined (dates : bucket) ds : forall st,
  out (fold_left (date_body bp false dates) ds st) = out st
  /\ combined_messages (fold_left (date_body bp false dates) ds st)
     = combined_messages st ++ flat_map (fun d => filed d dates) ds.
Proof.
  induction ds as [| d ds IH]; intros st; cbn [fold_left flat_map].
  - now rewrite !app_nil_r.
  - destruct (IH (date_body bp false dates st d)) as [-> ->].
    unfold date_body, filed. simpl. now rewrite app_assoc.
Qed.

Lemma version_body_lines date_group (versions : ledger) st v :
  snd (version_body bp date_group versions st v)
  = snd st ++ version_lines bp date_group versions v.
Proof.
  unfold version_body, version_lines.
  set (dates := match Dict.get v versions with Some d => d | None => [] end).
  set (order := sorted self true (Dict.keys dates)).
  set (st0 := mkRender (fst st) [] (snd st ++ [(nl ++ "## Version " ++ v)%string])).
  destruct date_group; simpl negb; cbv iota.
  - destruct (dates_grouped dates order st0) as [Ho _].
    simpl snd. rewrite Ho. unfold st0. simpl out.
    now rewrite <- app_assoc.
  - destruct (dates_combined dates order st0) as [Ho Hc].
    rewrite Hc. unfold st0 at 1 2. simpl combined_messages. simpl app.
    destruct (Nat.ltb 0 (List.length (flat_map (fun d => filed d dates) order)));
      simpl snd; rewrite Ho; unfold st0; simpl out;
      now rewrite <- app_assoc.
Qed.

Lemma versions_fold date_group (versions : ledger) vs : forall st,
  snd (fold_left (version_body bp date_group versions) vs st)
  = snd st ++ flat_map (version_lines bp date_group versions) vs.
Proof.
  induction vs as [| v vs IH]; intros st; cbn [fold_left flat_map].
  - now rewrite app_nil_r.
  - rewrite IH, version_body_lines. now rewrite <- app_assoc.
Qed.

(** The output is the title followed by the lines of each version, in the
    order of the sort; the date carried in [last_date] has no part in it. *)
Lemma md_commits_lines name (versions : ledger) date_group :
  md_commits bp name versions date_group
  = ("# " ++ name)%string
    :: flat_map (version_lines bp date_group versions)
                (sorted get_version true (Dict.keys versions)).
Proof. unfold md_commits. now rewrite versions_fold. Qed.

End Rendering.

(* ================================================================== *)
(** * Dates without messages *)
(* ================================================================== *)

Section EmptyDates.

(** C7, as amended.  In date-grouped rendering, on the console and in the
    file alike, the output is the title followed, version by version and
    date by date, by the lines of each date; a date whose message list is
    empty gives a heading with that date's own label, followed by the
    single bullet "Bugfixes and improvements".  The loop body sets
    [last_date] to the date at hand before it prints, so no earlier date
    reaches the heading. *)
Theorem empty_date_prints_its_own_heading (name : string) (versions : ledger) :
  print_md_commits name versions true
  = ("# " ++ name)%string
    :: flat_map (version_lines "" true versions)
                (sorted get_version true (Dict.keys versions))
  /\ md_writes name versions true
     = ("# " ++ name)%string
       :: flat_map (version_lines nl true versions)
                   (sorted get_version true (Dict.keys versions))
  /\ (forall bp d,
        date_lines bp d []
        = [(nl ++ "### Date: " ++ d)%string;
           (bp ++ "    - Bugfixes and improvements")%string])
  /\ (forall bp (dates : bucket) st d,
        Dict.get d dates = Some [] ->
        date_body bp true dates st d
        = mkRender d (combined_messages st)
            (out st ++ [(nl ++ "### Date: " ++ d)%string;
                        (bp ++ "    - Bugfixes and improvements")%string])).
Proof.
  split; [apply md_commits_lines |]. split; [apply md_commits_lines |].
  split; [reflexivity |].
  intros bp dates st d Hd. unfold date_body. now rewrite Hd.
Qed.

Lemma empty_date_prints_its_own_heading_witness :
  date_body "" true [("2024-01-03", ["x"]); ("2024-01-02", [])]
            (mkRender "2024-01-03" [] []) "2024-01-02"
  = mkRender "2024-01-02" []
      [(nl ++ "### Date: 2024-01-02")%string; "    - Bugfixes and improvements"].
Proof.
  exact (proj2 (proj2 (proj2
           (empty_date_prints_its_own_heading "repo" [])))
           "" [("2024-01-03", ["x"]); ("2024-01-02", [])]
           (mkRender "2024-01-03" [] []) "2024-01-02" eq_refl).
Defined.

(** C7 as it is worded fails: the date rendered just before the empty one
    is 2024-01-03, and the heading above the placeholder names 2024-01-02,
    the empty date itself. *)
Lemma empty_date_does_not_borrow_heading :
  parse_commits [mkCommit "x" "2024-01-03" true;
                 mkCommit "merge branch dev" "2024-01-02" true]
  = Ok [("0.0.0", [("2024-01-03", ["x"]); ("2024-01-02", [])])]
  /\ print_md_commits "repo"
       [("0.0.0", [("2024-01-03", ["x"]); ("2024-01-02", [])])] true
     = ["# repo"; (nl ++ "## Version 0.0.0")%string;
        (nl ++ "### Date: 2024-01-03")%string; "    - x";
        (nl ++ "### Date: 2024-01-02")%string;
        "    - Bugfixes and improvements"]
  /\ print_md_commits "repo"
       [("0.0.0", [("2024-01-03", ["x"]); ("2024-01-02", [])])] true
     <> ["# repo"; (nl ++ "## Version 0.0.0")%string;
         (nl ++ "### Date: 2024-01-03")%string; "    - x";
         (nl ++ "### Date: 2024-01-03")%string;
         "    - Bugfixes and improvements"].
Proof.
  split; [vm_compute; reflexivity |].
  split; [vm_compute; reflexivity |].
  vm_compute. discriminate.
Qed.

End EmptyDates.

(* ================================================================== *)
(** * The worked example *)
(* ================================================================== *)

Section WorkedExample.

(** C6, as amended.  For the two commits of the example, combined
    rendering prints the title, one version heading and one bullet; the
    bullet reads "Add: new Feature:  (Related to issue: #5)", because the
    rule for ["feature "] rewrites the word left in front of the space that
    the removed token leaves behind; nothing of the merge commit is
    printed. *)
Theorem example_renders_one_bullet (name : string) :
  parse_commits [mkCommit "Add new feature #5" "2024-01-02" true;
                 mkCommit "merge branch x" "2024-01-03" true]
  = Ok [("0.0.0",
         [("2024-01-02", ["Add: new Feature:  (Related to issue: #5)"]);
          ("2024-01-03", [])])]
  /\ print_md_commits name
       [("0.0.0",
         [("2024-01-02", ["Add: new Feature:  (Related to issue: #5)"]);
          ("2024-01-03", [])])] false
     = [("# " ++ name)%string; version_heading "0.0.0";
        "  - Add: new Feature:  (Related to issue: #5)"]
  /\ contains "merge" (version_heading "0.0.0") = false
  /\ contains "merge" "  - Add: new Feature:  (Related to issue: #5)" = false.
Proof.
  split; [vm_compute; reflexivity |].
  split; [rewrite (md_commits_lines "" name); vm_compute; reflexivity |].
  split; vm_compute; reflexivity.
Qed.

(** C6 as it is worded fails: the bullet of the specification is not among
    the lines printed. *)
Lemma example_bullet_differs :
  ~ In "  - Add: new feature (Related to issue: #5)"
       (print_md_commits "repo"
          [("0.0.0",
            [("2024-01-02", ["Add: new Feature:  (Related to issue: #5)"]);
             ("2024-01-03", [])])] false).
Proof.
  vm_compute. intros [H | [H | [H | []]]]; discriminate H.
Qed.

End WorkedExample.

(* ================================================================== *)
(** * Duplicates within a date *)
(* ================================================================== *)

Section Duplicates.

Lemma mem_In x l : mem x l = true <-> In x l.
Proof.
  induction l as [| y l IH]; simpl; [split; [discriminate | tauto] |].
  rewrite orb_true_iff, IH.
  destruct (String.eqb_spec x y); split; intros [H | H]; auto; discriminate.
Qed.

(** The single-line branch tests the normalized message and keeps the
    bucket free of duplicates. *)
Lemma single_line_keeps_nodup l m :
  NoDup l -> NoDup (appended l m m).
Proof.
  intros H. unfold appended. destruct (mem m l) eqn:E; [exact H |].
  apply NoDup_app; [exact H | repeat constructor; simpl; tauto |].
  intros x Hx [<- | []]. apply mem_In in Hx. congruence.
Qed.

(** C4 fails on the code: in the multi-line branch the membership test is
    made on the raw line while the normalized line is appended, so a
    message with the same line twice files the same entry twice. *)
Theorem multi_line_files_duplicates :
  parse_commits [mkCommit ("fix a" ++ nl ++ "fix a") "2024-01-02" true]
  = Ok [("0.0.0", [("2024-01-02", ["Fix: a"; "Fix: a"])])]
  /\ ~ NoDup ["Fix: a"; "Fix: a"].
Proof.
  split; [vm_compute; reflexivity |].
  intros H. inversion H as [| x l Hn _]. apply Hn. now left.
Qed.

End Duplicates.

(* ================================================================== *)
(** * The order of the versions *)
(* ================================================================== *)

Section VersionOrder.

Lemma filter_none {A : Type} (f : A -> bool) l :
  (forall x, In x l -> f x = false) -> filter f l = [].
Proof.
  induction l as [| x l IH]; simpl; intros H; [reflexivity |].
  rewrite (H x) by now left. apply IH. intros y Hy. apply H. now right.
Qed.

Lemma filter_flat_map_none {A B : Type} (f : B -> bool) (g : A -> list B) l :
  (forall x, filter f (g x) = []) -> filter f (flat_map g l) = [].
Proof.
  intros H. induction l as [| x l IH]; cbn [flat_map]; [reflexivity |].
  now rewrite filter_app, H, IH.
Qed.

Lemma filter_flat_map_one {A B : Type} (f : B -> bool) (g : A -> list B)
      (h : A -> B) l :
  (forall x, filter f (g x) = [h x]) -> filter f (flat_map g l) = map h l.
Proof.
  intros H. induction l as [| x l IH]; cbn [flat_map map]; [reflexivity |].
  now rewrite filter_app, H, IH.
Qed.

Lemma date_lines_no_heading bp d messages :
  bp = "" \/ bp = nl ->
  filter is_version_heading (date_lines bp d messages) = [].
Proof.
  intros Hbp. apply filter_none. intros x. unfold date_lines.
  destruct (Nat.ltb 0 (List.length messages)).
  - intros [<- | Hin]; [reflexivity |].
    apply in_map_iff in Hin. destruct Hin as (m & <- & _).
    destruct Hbp as [-> | ->]; reflexivity.
  - intros [<- | [<- | []]]; [reflexivity |].
    destruct Hbp as [-> | ->]; reflexivity.
Qed.

Lemma version_lines_heading bp date_group (versions : ledger) v :
  bp = "" \/ bp = nl ->
  filter is_version_heading (version_lines bp date_group versions v)
  = [version_heading v].
Proof.
  intros Hbp. unfold version_lines. cbn [filter].
  change (is_version_heading (version_heading v)) with true. cbv iota.
  f_equal. destruct date_group.
  - apply filter_flat_map_none. intros d. now apply date_lines_no_heading.
  - apply filter_none. intros x.
    destruct (Nat.ltb 0 _).
    + intros Hin. apply in_map_iff in Hin. destruct Hin as (m & <- & _).
      destruct Hbp as [-> | ->]; reflexivity.
    + intros [<- | []]. destruct Hbp as [-> | ->]; reflexivity.
Qed.

(** The version headings of the output, in the order they are emitted. *)
Lemma headings_in_sorted_order bp name (versions : ledger) date_group :
  bp = "" \/ bp = nl ->
  filter is_version_heading (md_commits bp name versions date_group)
  = map version_heading (sorted get_version true (Dict.keys versions)).
Proof.
  intros Hbp. rewrite md_commits_lines. cbn [filter].
  change (is_version_heading ("# " ++ name)) with false. cbv iota.
  apply filter_flat_map_one. intros v. now apply version_lines_heading.
Qed.

Lemma three_labels_order (l : list string) :
  Permutation l ["2.0.0"; "10.0.0"; "1.9.9"] ->
  sorted get_version true l = ["10.0.0"; "2.0.0"; "1.9.9"].
Proof.
  intros H. pose proof (Permutation_length H) as Hlen.
  destruct l as [| x [| y [| z [| w l]]]]; try discriminate Hlen.
  assert (Hx : In x ["2.0.0"; "10.0.0"; "1.9.9"])
    by (apply (Permutation_in _ H); simpl; auto).
  assert (Hy : In y ["2.0.0"; "10.0.0"; "1.9.9"])
    by (apply (Permutation_in _ H); simpl; auto).
  assert (Hz : In z ["2.0.0"; "10.0.0"; "1.9.9"])
    by (apply (Permutation_in _ H); simpl; auto).
  assert (Hnd : NoDup [x; y; z]).
  { apply (Permutation_NoDup (Permutation_sym H)).
    repeat constructor; simpl; intuition discriminate. }
  inversion Hnd as [| ? ? Hn1 Hnd1]; subst.
  inversion Hnd1 as [| ? ? Hn2 _]; subst.
  cbn [In] in Hx, Hy, Hz, Hn1, Hn2.
  destruct Hx as [<- | [<- | [<- | []]]];
    destruct Hy as [<- | [<- | [<- | []]]];
    destruct Hz as [<- | [<- | [<- | []]]];
    try (vm_compute; reflexivity); exfalso; tauto.
Qed.

(** C3. The renderer takes the version labels in the order given by a
    sort, descending, on the key [get_version]: the order is a permutation
    of the labels in which each key is at least the next one as strings,
    and the version headings of the output, console or file, follow it.
    The key is made of the first three fields of the label split at the
    dots, a missing field counting as ["0"], each filled with zeros to four
    characters, joined by dots.  For the labels 2.0.0, 10.0.0 and 1.9.9,
    entered in any order, the order is 10.0.0, 2.0.0, 1.9.9. *)
Theorem versions_rendered_by_descending_key :
  (forall (versions : ledger),
      Permutation (sorted get_version true (Dict.keys versions))
                  (Dict.keys versions)
      /\ Sorted (fun a b => String.leb (get_version b) (get_version a) = true)
                (sorted get_version true (Dict.keys versions))
      /\ (forall name date_group,
             filter is_version_heading
                    (print_md_commits name versions date_group)
             = map version_heading
                   (sorted get_version true (Dict.keys versions))
             /\ filter is_version_heading
                       (md_writes name versions date_group)
                = map version_heading
                      (sorted get_version true (Dict.keys versions))))
  /\ (forall elem,
         get_version elem
         = (zfill 4 (nth 0 (split "." elem) "0") ++ "."
            ++ zfill 4 (nth 1 (split "." elem) "0") ++ "."
            ++ zfill 4 (nth 2 (split "." elem) "0"))%string)
  /\ (forall (versions : ledger) name date_group,
         Permutation (Dict.keys versions) ["2.0.0"; "10.0.0"; "1.9.9"] ->
         sorted get_version true (Dict.keys versions)
         = ["10.0.0"; "2.0.0"; "1.9.9"]
         /\ filter is_version_heading
                   (print_md_commits name versions date_group)
            = [version_heading "10.0.0"; version_heading "2.0.0";
               version_heading "1.9.9"]).
Proof.
  split; [| split].
  - intros versions. split; [apply sorted_perm |].
    split; [apply (sorted_sorted _ get_version true) |].
    intros name date_group. split; apply headings_in_sorted_order; auto.
  - intros elem. unfold get_version, item_or.
    set (fields := split "." elem).
    assert (Hnth : forall i,
               (if Nat.ltb i (List.length fields) then nth i fields "" else "0")
               = nth i fields "0").
    { intros i. destruct (Nat.ltb_spec i (List.length fields)).
      - now apply nth_indep.
      - symmetry. now apply nth_overflow. }
    now rewrite !Hnth.
  - intros versions name date_group H.
    pose proof (three_labels_order _ H) as E. split; [exact E |].
    unfold print_md_commits.
    rewrite headings_in_sorted_order by auto. now rewrite E.
Qed.

Lemma versions_rendered_by_descending_key_witness :
  filter is_version_heading
         (print_md_commits "repo"
            [("2.0.0", []); ("10.0.0", []); ("1.9.9", [])] true)
  = [version_heading "10.0.0"; version_heading "2.0.0";
     version_heading "1.9.9"].
Proof.
  exact (proj2 (proj2 (proj2 versions_rendered_by_descending_key)
                  [("2.0.0", []); ("10.0.0", []); ("1.9.9", [])]
                  "repo" true (Permutation_refl _))).
Defined.

(** Labels with the same key keep the order in which they were entered. *)
Example equal_keys_keep_insertion_order :
  sorted get_version true ["1.0"; "2"; "1"; "1.0.0"]
  = ["2"; "1.0"; "1"; "1.0.0"].
Proof. vm_compute. reflexivity. Qed.

Example get_version_pads :
  map get_version ["10.0.0"; "1.9"; ""; "1.2.3.4"; "12345.6"]
  = ["0010.0000.0000"; "0001.0009.0000"; "0000.0000.0000";
     "0001.0002.0003"; "12345.0006.0000"].
Proof. vm_compute. reflexivity. Qed.

End VersionOrder.

(* ================================================================== *)
(** * Errors, and failure while saving *)
(* ================================================================== *)

Section SaveFailure.

Lemma app_nil_r_s (s : string) : (s ++ "")%string = s.
Proof. induction s; simpl; congruence. Qed.









(** ** Calls that end in one of the two expected ways *)














End SaveFailure.

(* ================================================================== *)
(** * Substrings, [replace] and [split] *)
(* ================================================================== *)

Section Substrings.
Implicit Types (p s a b old new : string).

Lemma startswith_app p b : startswith p (p ++ b) = true.
Proof.
  induction p as [| c p IH]; simpl; [reflexivity |].
  now rewrite Ascii.eqb_refl.
Qed.

Lemma contains_here p s : startswith p s = true -> contains p s = true.
Proof. intros H. destruct s; simpl in *; now rewrite H. Qed.

Lemma contains_app p a b : contains p (a ++ p ++ b) = true.
Proof.
  induction a as [| c a IH]; simpl.
  - apply contains_here, startswith_app.
  - rewrite IH. apply orb_true_r.
Qed.

Lemma lower_string_app a b :
  lower_string (a ++ b) = (lower_string a ++ lower_string b)%string.
Proof. induction a; simpl; congruence. Qed.

Lemma contains_empty s : contains "" s = true.
Proof. now destruct s. Qed.

(** Replacing a text that does not occur changes nothing. *)
Lemma replace_absent old new s :
  contains old s = false -> replace old new s = s.
Proof.
  unfold replace. destruct old as [| o old].
  - now rewrite contains_empty.
  - induction s as [| c s IH]; intros H; [reflexivity |].
    cbn [contains] in H. apply orb_false_elim in H. destruct H as [Hs Hc].
    cbn [replace_from]. rewrite Hs. now rewrite (IH Hc).
Qed.

(** A replacement made of characters of a kind keeps a text of that kind. *)
Lemma all_chars_app q a b :
  all_chars q (a ++ b) = all_chars q a && all_chars q b.
Proof.
  induction a as [| c a IH]; simpl; [reflexivity |].
  now rewrite IH, andb_assoc.
Qed.

Lemma replace_from_all_chars q old new : forall s skip,
  all_chars q new = true -> all_chars q s = true ->
  all_chars q (replace_from old new skip s) = true.
Proof.
  induction s as [| c s IH]; intros skip Hn Hs.
  - simpl. now destruct old.
  - cbn [all_chars] in Hs. apply andb_prop in Hs. destruct Hs as [Hc Hs].
    cbn [replace_from]. destruct skip as [| n]; [| now apply IH].
    destruct old as [| o old].
    + rewrite all_chars_app, Hn. cbn [all_chars andb]. rewrite Hc. now apply IH.
    + destruct (startswith (String o old) (String c s)).
      * rewrite all_chars_app, Hn. now apply IH.
      * cbn [all_chars]. rewrite Hc. now apply IH.
Qed.

Lemma replace_all_chars q old new s :
  all_chars q new = true -> all_chars q s = true ->
  all_chars q (replace old new s) = true.
Proof. apply replace_from_all_chars. Qed.

Lemma split_nonempty sep s : split sep s <> [].
Proof.
  induction s as [| c s IH]; simpl; [discriminate |].
  destruct (Ascii.eqb c sep); [discriminate |].
  destruct (split sep s); [contradiction | discriminate].
Qed.

(** No field of a split holds the separator. *)
Lemma split_fields sep s f :
  In f (split sep s) ->
  all_chars (fun c => negb (Ascii.eqb c sep)) f = true.
Proof.
  revert f. induction s as [| c s IH]; intros f; simpl.
  - intros [<- | []]. reflexivity.
  - destruct (Ascii.eqb c sep) eqn:E.
    + intros [<- | H]; [reflexivity | now apply IH].
    + destruct (split sep s) as [| g gs] eqn:Hs.
      * intros [<- | []]. simpl. now rewrite E.
      * intros [<- | H].
        -- simpl. rewrite E. simpl. apply IH. now left.
        -- apply IH. now right.
Qed.

(** A text without the separator is its own single field. *)
Lemma split_single sep s :
  all_chars (fun c => negb (Ascii.eqb c sep)) s = true -> split sep s = [s].
Proof.
  induction s as [| c s IH]; simpl; [reflexivity |].
  intros H. apply andb_prop in H. destruct H as [Hc Hs].
  apply negb_true_iff in Hc. rewrite Hc, (IH Hs). reflexivity.
Qed.

Lemma split_app sep a s :
  all_chars (fun c => negb (Ascii.eqb c sep)) a = true ->
  split sep (a ++ String sep s) = a :: split sep s.
Proof.
  induction a as [| c a IH]; simpl; intros H.
  - now rewrite Ascii.eqb_refl.
  - apply andb_prop in H. destruct H as [Hc Ha].
    apply negb_true_iff in Hc. now rewrite Hc, (IH Ha).
Qed.

Lemma not_contains_nl s :
  contains nl s = false -> all_chars not_newline s = true.
Proof.
  induction s as [| c s IH]; simpl; [reflexivity |].
  intros H. apply orb_false_elim in H. destruct H as [Hc Hs].
  rewrite (IH Hs), andb_true_r. unfold not_newline.
  destruct (Ascii.eqb_spec newline c) as [<- | Hne].
  - discriminate Hc.
  - destruct (Ascii.eqb_spec c newline); [congruence | reflexivity].
Qed.

End Substrings.

(* ================================================================== *)
(** * More on the classifier *)
(* ================================================================== *)

Section Classifier.

Lemma all_chars_impl (p q : ascii -> bool) s :
  (forall c, p c = true -> q c = true) ->
  all_chars p s = true -> all_chars q s = true.
Proof.
  intros Hpq. induction s as [| c s IH]; simpl; [reflexivity |].
  intros H. apply andb_prop in H. destruct H as [Hc Hs].
  now rewrite (Hpq c Hc), (IH Hs).
Qed.

Lemma digit_not_newline c : is_digit c = true -> not_newline c = true.
Proof.
  intros H. unfold not_newline.
  destruct (Ascii.eqb_spec c newline) as [-> | _]; [discriminate H | reflexivity].
Qed.

(** The issue is empty or a [#] followed by digits. *)
Lemma issue_of_shape m :
  issue_of m = "" \/ exists s1, issue_of m = String "#" (take_while is_digit s1).
Proof.
  unfold issue_of. rewrite issue_match_unfold.
  destruct (star not_newline m _) as [[g |] |] eqn:H; auto.
  apply star_sound in H. destruct H as (a & b & _ & _ & Hb).
  rewrite issue_here in Hb. destruct b as [| c s1]; [discriminate |].
  destruct (token_start (String c s1)); [| discriminate].
  inversion Hb. right. now exists s1.
Qed.

Lemma issue_of_no_newline m : all_chars not_newline (issue_of m) = true.
Proof.
  destruct (issue_of_shape m) as [-> | (s1 & ->)]; [reflexivity |].
  cbn [all_chars]. change (not_newline "#") with true. cbn [andb].
  apply (all_chars_impl is_digit); [apply digit_not_newline |].
  apply take_while_all.
Qed.

Lemma extract_issue_no_newline m :
  all_chars not_newline m = true ->
  all_chars not_newline (extract_issue m) = true.
Proof.
  intros H. unfold extract_issue.
  destruct (negb (String.eqb (issue_of m) "")); [| exact H].
  rewrite !all_chars_app, issue_of_no_newline.
  rewrite replace_all_chars; [reflexivity | reflexivity |].
  now apply replace_all_chars.
Qed.

Lemma rewrite_rules_no_newline rules : forall m,
  (forall r, In r rules -> all_chars not_newline (snd r) = true) ->
  all_chars not_newline m = true ->
  all_chars not_newline
    (fold_left (fun acc rule => replace (fst rule) (snd rule) acc) rules m)
  = true.
Proof.
  induction rules as [| r rules IH]; intros m Hr Hm; simpl; [exact Hm |].
  apply IH.
  - intros r' Hin. apply Hr. now right.
  - apply replace_all_chars; [apply Hr; now left | exact Hm].
Qed.

(** A one-line text stays a one-line text. *)
Lemma parse_message_no_newline m :
  all_chars not_newline m = true ->
  all_chars not_newline (parse_message m) = true.
Proof.
  intros H. unfold parse_message, rewrite_categories.
  apply rewrite_rules_no_newline; [| now apply extract_issue_no_newline].
  assert (E : forallb (fun r => all_chars not_newline (snd r)) CATEGORY_RULES
              = true) by reflexivity.
  intros r Hin. now apply (proj1 (forallb_forall _ _) E).
Qed.

Lemma rewrite_rules_absent rules : forall m,
  (forall r, In r rules -> contains (fst r) m = false) ->
  fold_left (fun acc rule => replace (fst rule) (snd rule) acc) rules m = m.
Proof.
  induction rules as [| r rules IH]; intros m Hr; simpl; [reflexivity |].
  rewrite replace_absent by (apply Hr; now left).
  apply IH. intros r' Hin. apply Hr. now right.
Qed.

(** X1. A message whose first line holds no issue token and in which none
    of the texts looked for by the category rules occurs comes out of
    [parse_message] as it went in. *)
Theorem plain_message_unchanged (m : string) :
  token_on_line m = false ->
  (forall r, In r CATEGORY_RULES -> contains (fst r) m = false) ->
  parse_message m = m.
Proof.
  intros Ht Hr. unfold parse_message, extract_issue.
  rewrite (issue_of_no_token m Ht). cbn [String.eqb negb].
  unfold rewrite_categories. now apply rewrite_rules_absent.
Qed.

Lemma plain_message_unchanged_witness :
  parse_message "update the docs" = "update the docs".
Proof.
  apply plain_message_unchanged; [reflexivity |].
  assert (E : forallb (fun r => negb (contains (fst r) "update the docs"))
                      CATEGORY_RULES = true) by reflexivity.
  intros r Hin. apply negb_true_iff.
  exact (proj1 (forallb_forall _ _) E r Hin).
Defined.

(** X2. The skip test looks for its words anywhere in the message, inside
    longer words too, and in any case of the letters: a commit whose
    message holds a skip word, in some casing, between any two texts is
    not kept, and the loop leaves the state as it found it. *)
Theorem skip_word_matches_anywhere (w w' pre post date : string) (main : bool) :
  In w SKIP_WORDS ->
  lower_string w' = lower_string w ->
  kept (mkCommit (pre ++ w' ++ post) date main) = false
  /\ forall st, loop_body st (mkCommit (pre ++ w' ++ post) date main) = Ok st.
Proof.
  intros Hin Hw.
  assert (Hk : kept (mkCommit (pre ++ w' ++ post) date main) = false).
  { apply skipped_not_kept. left. exists w. split; [exact Hin |].
    unfold contains_ci. cbn [msg].
    rewrite !lower_string_app, Hw. apply contains_app. }
  split; [exact Hk |]. intros st. now apply loop_body_skip.
Qed.

Lemma skip_word_matches_anywhere_witness :
  kept (mkCommit "Redefinition of the parser" "2024-01-02" true) = false.
Proof.
  refine (proj1 (skip_word_matches_anywhere
                   "init" "init" "Redef" "ion of the parser"
                   "2024-01-02" true _ eq_refl)).
  simpl. tauto.
Defined.

End Classifier.

(* ================================================================== *)
(** * What the ledger holds *)
(* ================================================================== *)

Section LedgerContents.
Implicit Types (st : (string * ledger)%type) (c : Commit) (cs : list Commit).

Lemma get_some_in_keys (V : Type) k (d : Dict.t V) v :
  Dict.get k d = Some v -> In k (Dict.keys d).
Proof.
  induction d as [| [k0 v0] d IH]; simpl; [discriminate |].
  destruct (String.eqb_spec k k0) as [-> | _]; [now left |].
  intros H. right. now apply IH.
Qed.

Lemma in_keys_get (V : Type) k (d : Dict.t V) :
  In k (Dict.keys d) -> exists v, Dict.get k d = Some v.
Proof.
  induction d as [| [k0 v0] d IH]; simpl; [tauto |].
  destruct (String.eqb_spec k k0) as [-> | Hne]; [eauto |].
  intros [H | H]; [congruence | now apply IH].
Qed.

Lemma keys_set_in (V : Type) k k' (v : V) (d : Dict.t V) :
  In k (Dict.keys (Dict.set k' v d)) -> k = k' \/ In k (Dict.keys d).
Proof.
  induction d as [| [k0 v0] d IH]; simpl.
  - intros [H | []]. now left.
  - destruct (String.eqb_spec k' k0) as [-> | _]; simpl.
    + intros [H | H]; auto.
    + intros [H | H]; auto. destruct (IH H); auto.
Qed.

Lemma keys_set_nodup (V : Type) k (v : V) (d : Dict.t V) :
  NoDup (Dict.keys d) -> NoDup (Dict.keys (Dict.set k v d)).
Proof.
  intros H. destruct (Dict.get k d) as [v0 |] eqn:E.
  - rewrite keys_set_present; [exact H | unfold has_key; congruence].
  - rewrite keys_set_absent by exact E.
    apply NoDup_app; [exact H | repeat constructor; simpl; tauto |].
    intros x Hx [<- | []].
    apply in_keys_get in Hx. destruct Hx as (v0 & Hv0). congruence.
Qed.

Lemma keys_set_head (V : Type) k (v : V) (d : Dict.t V) k0 :
  hd_error (Dict.keys d) = Some k0 ->
  hd_error (Dict.keys (Dict.set k v d)) = Some k0.
Proof.
  destruct d as [| [k1 v1] d]; simpl; [discriminate |].
  intros H. destruct (String.eqb_spec k k1) as [-> | _]; simpl; congruence.
Qed.

(** ** Buckets *)

Lemma every_bucket_switch P m version (versions : ledger) :
  every_bucket P versions ->
  every_bucket P (snd (switch_version m version versions)).
Proof.
  intros H. unfold switch_version.
  destruct (contains "release" m); [| exact H].
  destruct (release_match m) as [v |]; [| exact H].
  simpl. intros v0 dates d l Hv Hd.
  destruct (string_dec v0 v) as [-> | Hne].
  - rewrite get_set_same in Hv. inversion Hv; subst. discriminate Hd.
  - rewrite get_set_other in Hv by exact Hne. eapply H; eauto.
Qed.

(** One iteration keeps a property of the message lists when the commit,
    if it is kept, takes the list of its date to a list that has it. *)
Lemma step_every_bucket P st c :
  every_bucket P (snd st) ->
  (kept c = true ->
   forall l, l = [] \/ P (author_date c) l ->
             P (author_date c) (contribute l (msg c))) ->
  every_bucket P (snd (step st c)).
Proof.
  intros Hst Hc. unfold step. destruct (kept c) eqn:Hk; [| exact Hst].
  specialize (Hc eq_refl).
  pose proof (every_bucket_switch P (msg c) (fst st) (snd st) Hst) as Hsw.
  destruct (switch_version (msg c) (fst st) (snd st)) as [v1 l1].
  simpl in Hsw.
  destruct (Dict.get v1 l1) as [dates |] eqn:Hv1; [| exact Hsw].
  simpl. intros v0 dates0 d l Hv Hd.
  destruct (string_dec v0 v1) as [-> | Hne].
  - rewrite get_set_same in Hv. inversion Hv; subst dates0. clear Hv.
    destruct (string_dec d (author_date c)) as [-> | Hd'].
    + rewrite get_set_same in Hd. inversion Hd; subst l.
      apply Hc. unfold filed.
      destruct (Dict.get (author_date c) dates) as [l0 |] eqn:E; [| now left].
      right. eapply Hsw; eauto.
    + rewrite get_set_other in Hd by exact Hd'. eapply Hsw; eauto.
  - rewrite get_set_other in Hv by exact Hne. eapply Hsw; eauto.
Qed.

Lemma steps_every_bucket P cs : forall st,
  every_bucket P (snd st) ->
  (forall c, In c cs -> kept c = true ->
     forall l, l = [] \/ P (author_date c) l ->
               P (author_date c) (contribute l (msg c))) ->
  every_bucket P (snd (fold_left step cs st)).
Proof.
  induction cs as [| c cs IH]; intros st Hst Hall; simpl; [exact Hst |].
  apply IH.
  - apply step_every_bucket; [exact Hst |]. intros Hk. apply Hall; [now left | exact Hk].
  - intros c' Hin. apply Hall. now right.
Qed.

Lemma initial_every_bucket P : every_bucket P (snd initial_state).
Proof.
  intros v dates d l Hv Hd. simpl in Hv.
  destruct (String.eqb v "0.0.0"); [| discriminate].
  inversion Hv; subst. discriminate Hd.
Qed.

Lemma appended_in l check entry e :
  In e (appended l check entry) -> In e l \/ e = entry.
Proof.
  unfold appended. destruct (mem check l); [now left |].
  intros H. apply in_app_or in H. destruct H as [H | [H | []]]; auto.
Qed.

Lemma add_lines_in lines : forall l e,
  In e (add_lines l lines) ->
  In e l \/ exists line, In line lines /\ e = parse_message line.
Proof.
  unfold add_lines.
  induction lines as [| line lines IH]; intros l e; simpl; [now left |].
  intros H. apply IH in H. destruct H as [H | (line' & Hin & ->)].
  - apply appended_in in H. destruct H as [H | ->]; [now left |].
    right. exists line. split; [now left | reflexivity].
  - right. exists line'. split; [now right | reflexivity].
Qed.

Lemma contribute_in l m e :
  In e (contribute l m) ->
  In e l \/ (version_search m = false
             /\ exists line, In line (split newline m) /\ e = parse_message line).
Proof.
  unfold contribute. destruct (version_search m); [now left |].
  destruct (contains nl m) eqn:Hnl.
  - intros H. apply add_lines_in in H. destruct H as [H | H]; [now left |].
    right. now split.
  - intros H. apply appended_in in H. destruct H as [H | ->]; [now left |].
    right. split; [reflexivity |]. exists m. split; [| reflexivity].
    rewrite (split_single newline m); [now left |].
    now apply not_contains_nl.
Qed.

(** Where a filed message comes from. *)
Lemma filed_entry_origin cs :
  every_bucket
    (fun d l =>
       forall e, In e l ->
         exists c, In c cs /\ kept c = true /\ author_date c = d
                   /\ version_search (msg c) = false
                   /\ exists line, In line (split newline (msg c))
                                   /\ e = parse_message line)
    (snd (fold_left step cs initial_state)).
Proof.
  apply steps_every_bucket; [apply initial_every_bucket |].
  intros c Hin Hk l Hl e He.
  apply contribute_in in He. destruct He as [He | (Hv & line & Hline & ->)].
  - destruct Hl as [-> | Hl]; [destruct He | now apply Hl].
  - exists c. repeat split; auto. now exists line.
Qed.

End LedgerContents.

(* ================================================================== *)
(** * Invariants of the finished ledger *)
(* ================================================================== *)

Section LedgerInvariants.
Implicit Types (st : (string * ledger)%type) (c : Commit) (cs : list Commit).

(** X3. Every message filed in the ledger is the classifier's output on
    one line of the message of a commit of the list that passed the skip
    test and is not a merge: nothing of a skipped commit or of a commit
    worded as a merge is ever filed. *)
Theorem filed_messages_come_from_kept_lines (cs : list Commit) :
  exists versions,
    parse_commits cs = Ok versions
    /\ forall e, filed_in versions e ->
         exists c, In c cs /\ kept c = true
                   /\ version_search (msg c) = false
                   /\ exists line, In line (split newline (msg c))
                                   /\ e = parse_message line.
Proof.
  exists (snd (fold_left step cs initial_state)).
  split; [apply parse_commits_steps |].
  intros e (v & dates & d & l & Hv & Hd & He).
  destruct (filed_entry_origin cs v dates d l Hv Hd e He)
    as (c & Hin & Hk & _ & Hs & Hline).
  exists c. auto.
Qed.

(** X4. No message filed in the ledger holds a newline, so each one is
    rendered as a bullet of one line. *)
Theorem filed_messages_are_single_lines (cs : list Commit) :
  exists versions,
    parse_commits cs = Ok versions
    /\ forall e, filed_in versions e -> all_chars not_newline e = true.
Proof.
  exists (snd (fold_left step cs initial_state)).
  split; [apply parse_commits_steps |].
  intros e (v & dates & d & l & Hv & Hd & He).
  destruct (filed_entry_origin cs v dates d l Hv Hd e He)
    as (c & _ & _ & _ & _ & line & Hline & ->).
  apply parse_message_no_newline.
  exact (split_fields newline (msg c) line Hline).
Qed.

(** X5. When no kept commit has a message of several lines, no message
    list of the ledger holds the same text twice. *)
Theorem single_line_commits_file_no_duplicates (cs : list Commit) :
  (forall c, In c cs -> kept c = true -> contains nl (msg c) = false) ->
  exists versions,
    parse_commits cs = Ok versions
    /\ every_bucket (fun _ l => NoDup l) versions.
Proof.
  intros Hall. exists (snd (fold_left step cs initial_state)).
  split; [apply parse_commits_steps |].
  apply steps_every_bucket; [apply initial_every_bucket |].
  intros c Hin Hk l Hl.
  assert (Hnd : NoDup l) by (destruct Hl as [-> | Hl]; [constructor | exact Hl]).
  unfold contribute. destruct (version_search (msg c)); [exact Hnd |].
  rewrite (Hall c Hin Hk). now apply single_line_keeps_nodup.
Qed.

Lemma single_line_commits_file_no_duplicates_witness :
  exists versions,
    parse_commits [mkCommit "fix a" "2024-01-02" true;
                   mkCommit "fix a" "2024-01-02" true;
                   mkCommit "add b" "2024-01-02" true] = Ok versions
    /\ every_bucket (fun _ l => NoDup l) versions.
Proof.
  apply single_line_commits_file_no_duplicates.
  intros c [<- | [<- | [<- | []]]] _; reflexivity.
Defined.

(** X6. Every date of every bucket is the author date of a commit of the
    list that passed the skip test. *)
Theorem bucket_dates_come_from_kept_commits (cs : list Commit) :
  exists versions,
    parse_commits cs = Ok versions
    /\ forall v dates d,
         Dict.get v versions = Some dates -> In d (Dict.keys dates) ->
         exists c, In c cs /\ kept c = true /\ author_date c = d.
Proof.
  exists (snd (fold_left step cs initial_state)).
  split; [apply parse_commits_steps |].
  intros v dates d Hv Hd. apply in_keys_get in Hd. destruct Hd as (l & Hd).
  assert (H : every_bucket
                (fun d _ => exists c, In c cs /\ kept c = true
                                      /\ author_date c = d)
                (snd (fold_left step cs initial_state))).
  { apply steps_every_bucket; [apply initial_every_bucket |].
    intros c Hin Hk l0 _. exists c. auto. }
  exact (H v dates d l Hv Hd).
Qed.

Lemma step_keys_unique st c :
  NoDup (Dict.keys (snd st))
  /\ hd_error (Dict.keys (snd st)) = Some "0.0.0"
  /\ (forall v dates, Dict.get v (snd st) = Some dates ->
                      NoDup (Dict.keys dates)) ->
  NoDup (Dict.keys (snd (step st c)))
  /\ hd_error (Dict.keys (snd (step st c))) = Some "0.0.0"
  /\ (forall v dates, Dict.get v (snd (step st c)) = Some dates ->
                      NoDup (Dict.keys dates)).
Proof.
  intros H. unfold step. destruct (kept c); [| exact H].
  assert (Hsw : NoDup (Dict.keys (snd (switch_version (msg c) (fst st) (snd st))))
                /\ hd_error (Dict.keys
                     (snd (switch_version (msg c) (fst st) (snd st))))
                   = Some "0.0.0"
                /\ (forall v dates,
                      Dict.get v (snd (switch_version (msg c) (fst st) (snd st)))
                      = Some dates -> NoDup (Dict.keys dates))).
  { unfold switch_version. destruct (contains "release" (msg c)); [| exact H].
    destruct (release_match (msg c)) as [v |]; [| exact H].
    destruct H as (H1 & H2 & H3). simpl. split; [| split].
    - now apply keys_set_nodup.
    - now apply keys_set_head.
    - intros v0 dates Hv. destruct (string_dec v0 v) as [-> | Hne].
      + rewrite get_set_same in Hv. inversion Hv. constructor.
      + rewrite get_set_other in Hv by exact Hne. eapply H3; eauto. }
  destruct (switch_version (msg c) (fst st) (snd st)) as [v1 l1].
  simpl in Hsw. destruct Hsw as (H1 & H2 & H3).
  destruct (Dict.get v1 l1) as [dates |] eqn:Hv1; simpl; [| auto].
  split; [| split].
  - now apply keys_set_nodup.
  - now apply keys_set_head.
  - intros v0 dates0 Hv. destruct (string_dec v0 v1) as [-> | Hne].
    + rewrite get_set_same in Hv. inversion Hv.
      apply keys_set_nodup. eapply H3; eauto.
    + rewrite get_set_other in Hv by exact Hne. eapply H3; eauto.
Qed.

(** X7. In the finished ledger no version label is keyed twice and no date
    is keyed twice within a version; the first label, in the order of
    insertion, is ["0.0.0"]. *)
Theorem ledger_keys_are_unique (cs : list Commit) :
  exists versions,
    parse_commits cs = Ok versions
    /\ NoDup (Dict.keys versions)
    /\ hd_error (Dict.keys versions) = Some "0.0.0"
    /\ forall v dates, Dict.get v versions = Some dates ->
                       NoDup (Dict.keys dates).
Proof.
  exists (snd (fold_left step cs initial_state)).
  split; [apply parse_commits_steps |].
  assert (H : forall cs st,
             NoDup (Dict.keys (snd st))
             /\ hd_error (Dict.keys (snd st)) = Some "0.0.0"
             /\ (forall v dates, Dict.get v (snd st) = Some dates ->
                                 NoDup (Dict.keys dates)) ->
             NoDup (Dict.keys (snd (fold_left step cs st)))
             /\ hd_error (Dict.keys (snd (fold_left step cs st))) = Some "0.0.0"
             /\ (forall v dates,
                    Dict.get v (snd (fold_left step cs st)) = Some dates ->
                    NoDup (Dict.keys dates))).
  { clear cs. induction cs as [| c cs IH]; intros st Hst; simpl; [exact Hst |].
    apply IH. now apply step_keys_unique. }
  apply H. simpl. split; [repeat constructor; simpl; tauto |].
  split; [reflexivity |].
  intros v dates Hv. destruct (String.eqb v "0.0.0"); [| discriminate].
  inversion Hv. constructor.
Qed.

Lemma step_new_key st c k :
  In k (Dict.keys (snd (step st c))) ->
  In k (Dict.keys (snd st))
  \/ (is_marker c = true /\ release_match (msg c) = Some k).
Proof.
  unfold step. destruct (kept c) eqn:Hk; [| now left].
  destruct (is_marker c) eqn:Hm.
  - destruct (switch_marked c (fst st) (snd st) Hm) as (v & Hr & ->).
    rewrite get_set_same. simpl. intros H.
    apply keys_set_in in H. destruct H as [-> | H]; [now right |].
    apply keys_set_in in H. destruct H as [-> | H]; [now right | now left].
  - rewrite (switch_unmarked c _ _ Hk Hm).
    destruct (Dict.get (fst st) (snd st)) as [dates |] eqn:E; simpl; [| now left].
    intros H. apply keys_set_in in H. destruct H as [-> | H]; [| now left].
    left. eapply get_some_in_keys; eauto.
Qed.

(** X8. Every version label of the finished ledger is ["0.0.0"] or the text
    captured from a commit of the list that switches the version; it is
    never empty and is made of digits and dots only. *)
Theorem version_labels_are_digit_runs (cs : list Commit) :
  exists versions,
    parse_commits cs = Ok versions
    /\ forall k, In k (Dict.keys versions) ->
         (k = "0.0.0"
          \/ exists c, In c cs /\ is_marker c = true
                       /\ release_match (msg c) = Some k)
         /\ k <> "" /\ all_chars digit_or_dot k = true.
Proof.
  exists (snd (fold_left step cs initial_state)).
  split; [apply parse_commits_steps |].
  assert (H : forall cs0 st k,
             In k (Dict.keys (snd (fold_left step cs0 st))) ->
             In k (Dict.keys (snd st))
             \/ exists c, In c cs0 /\ is_marker c = true
                          /\ release_match (msg c) = Some k).
  { induction cs0 as [| c cs0 IH]; intros st k; simpl; [now left |].
    intros Hin. apply IH in Hin. destruct Hin as [Hin | (c' & Hc' & Hm)].
    - apply step_new_key in Hin. destruct Hin as [Hin | [Hm Hr]]; [now left |].
      right. exists c. auto.
    - right. exists c'. auto. }
  intros k Hk. apply H in Hk. destruct Hk as [[<- | []] | (c & Hin & Hm & Hr)].
  - split; [now left |]. split; [discriminate | reflexivity].
  - split; [right; exists c; auto |].
    destruct (release_match_shape _ _ Hr) as (_ & _ & _ & _ & _ & _ & Hne & Hall & _).
    now split.
Qed.

(** X9. A commit that passes the skip test and is worded as a merge (one
    of the version words occurs in its message, whatever the case) opens
    the bucket of its date under the version current after the release
    test, and files no text: the messages of that date are what they were,
    none if the date is new. *)
Theorem merge_commit_opens_bucket_only c st :
  has_key (fst st) (snd st) ->
  kept c = true ->
  (exists w, In w VERSION_WORDS /\ contains_ci w (msg c) = true) ->
  exists v1 l1 dates,
    switch_version (msg c) (fst st) (snd st) = (v1, l1)
    /\ Dict.get v1 l1 = Some dates
    /\ loop_body st c
       = Ok (v1, Dict.set v1
                   (Dict.set (author_date c)
                             (filed (author_date c) dates) dates) l1).
Proof.
  intros Hkey Hk (w & Hin & Hw).
  assert (Hvs : version_search (msg c) = true).
  { rewrite version_search_words. apply existsb_exists. eauto. }
  destruct (loop_body_step st c Hkey) as [Hbody _].
  rewrite Hbody. unfold step. rewrite Hk.
  assert (Hsw : has_key (fst (switch_version (msg c) (fst st) (snd st)))
                        (snd (switch_version (msg c) (fst st) (snd st)))).
  { unfold switch_version. destruct (contains "release" (msg c)); [| exact Hkey].
    destruct (release_match (msg c)); [| exact Hkey].
    simpl. unfold has_key. rewrite get_set_same. discriminate. }
  destruct (switch_version (msg c) (fst st) (snd st)) as [v1 l1].
  simpl in Hsw. unfold has_key in Hsw.
  destruct (Dict.get v1 l1) as [dates |] eqn:Hv; [| congruence].
  exists v1, l1, dates. split; [reflexivity |]. split; [exact Hv |].
  unfold contribute. now rewrite Hvs.
Qed.

Lemma merge_commit_opens_bucket_only_witness :
  loop_body initial_state (mkCommit "Merge branch 'dev'" "2024-03-01" true)
  = Ok ("0.0.0", [("0.0.0", [("2024-03-01", [])])]).
Proof.
  destruct (merge_commit_opens_bucket_only
              (mkCommit "Merge branch 'dev'" "2024-03-01" true)
              initial_state initial_keyed eq_refl)
    as (v1 & l1 & dates & Hsw & Hget & Hrun).
  - exists "merge branch". split; [simpl; tauto | reflexivity].
  - inversion Hsw; subst v1 l1. inversion Hget; subst dates. exact Hrun.
Defined.

(** X10. After the traversal the current version is the text captured from
    the last commit that switches the version, and ["0.0.0"] when no commit
    does. *)
Theorem current_version_is_last_capture :
  (forall cs,
      (forall c, In c cs -> is_marker c = false) ->
      exists versions, run_commits cs = Ok ("0.0.0", versions))
  /\ (forall pre m post v,
         is_marker m = true -> release_match (msg m) = Some v ->
         (forall c, In c post -> is_marker c = false) ->
         exists versions, run_commits (pre ++ m :: post) = Ok (v, versions)).
Proof.
  split.
  - intros cs Hall. rewrite run_commits_steps.
    destruct (steps_unmarked cs initial_state initial_keyed Hall) as [Hv _].
    destruct (fold_left step cs initial_state) as [v l]. simpl in Hv. subst v.
    now exists l.
  - intros pre m post v Hm Hr Hall. rewrite run_commits_steps.
    rewrite fold_left_app. cbn [fold_left].
    set (st0 := fold_left step pre initial_state).
    assert (Hk0 : has_key (fst st0) (snd st0))
      by apply (proj2 (for_each_steps pre initial_state initial_keyed)).
    destruct (step_version_marked st0 m Hm) as (v' & Hr' & Hv').
    assert (v' = v) by congruence. subst v'.
    pose proof (proj2 (loop_body_step st0 m Hk0)) as Hk1.
    destruct (steps_unmarked post (step st0 m) Hk1 Hall) as [Hv'' _].
    destruct (fold_left step post (step st0 m)) as [v2 l2].
    simpl in Hv''. exists l2. congruence.
Qed.

Lemma current_version_is_last_capture_witness :
  exists versions,
    run_commits ([mkCommit "release/1.0" "2024-01-01" true]
                 ++ mkCommit "release/v2.1" "2024-02-01" true
                 :: [mkCommit "fix lexer" "2024-02-02" true])
    = Ok ("2.1", versions).
Proof.
  apply (proj2 current_version_is_last_capture
               [mkCommit "release/1.0" "2024-01-01" true]
               (mkCommit "release/v2.1" "2024-02-01" true)
               [mkCommit "fix lexer" "2024-02-02" true] "2.1");
    [reflexivity | reflexivity |].
  intros c [<- | []]. reflexivity.
Defined.

End LedgerInvariants.

(* ================================================================== *)
(** * Where the release pattern captures *)
(* ================================================================== *)

Section ReleaseCapture.

Lemma star_ext (R : Type) p (k k' : string -> option R) s :
  (forall b, k b = k' b) -> star p s k = star p s k'.
Proof.
  intros H. induction s as [| c s IH]; simpl; [apply H |].
  destruct (p c); [| apply H]. rewrite IH. now rewrite H.
Qed.

(** Nothing matches when the continuation fails wherever it can be tried. *)
Lemma star_none (R : Type) p (k : string -> option R) s :
  (forall a b, s = (a ++ b)%string -> all_chars p a = true -> k b = None) ->
  star p s k = None.
Proof.
  induction s as [| c s IH]; intros H; simpl.
  - now apply (H "" "").
  - destruct (p c) eqn:Hc.
    + rewrite IH.
      * now apply (H "" (String c s)).
      * intros a b -> Ha. apply (H (String c a) b); [reflexivity |].
        simpl. now rewrite Hc.
    + now apply (H "" (String c s)).
Qed.

Lemma v_is_no_digit_or_dot x :
  digit_or_dot x = true -> Ascii.eqb "v" x = false.
Proof.
  intros H. destruct (Ascii.eqb_spec "v" x) as [<- | _];
    [discriminate H | reflexivity].
Qed.

Lemma release_match_star m :
  re_match false release_regexp m
  = star not_newline m (fun s => option_map Some (version_here s)).
Proof.
  rewrite release_match_unfold. apply star_ext. intros b.
  destruct b as [| c s1]; [reflexivity |].
  unfold version_here, version_start.
  destruct (Ascii.eqb c "/"); [| reflexivity]. cbn [andb].
  destruct s1 as [| x s2].
  - now rewrite run_group_here.
  - cbn [strip_v]. destruct (Ascii.eqb "v" x) eqn:Hx.
    + rewrite !run_group_here.
      destruct (starts_with digit_or_dot s2); [reflexivity |].
      cbn [starts_with].
      destruct (digit_or_dot x) eqn:Hd; [| reflexivity].
      apply v_is_no_digit_or_dot in Hd. congruence.
    + rewrite run_group_here.
      now destruct (starts_with digit_or_dot (String x s2)).
Qed.

Lemma version_on_line_suffix a : forall b,
  version_on_line (a ++ b) = false -> all_chars not_newline a = true ->
  version_start b = false.
Proof.
  induction a as [| c a IH]; intros b H Ha.
  - destruct b as [| c b]; [reflexivity |].
    cbn [append version_on_line] in H.
    destruct (Ascii.eqb_spec c newline) as [-> | _].
    + reflexivity.
    + now apply orb_false_elim in H.
  - cbn [all_chars] in Ha. apply andb_prop in Ha. destruct Ha as [Hc Ha].
    cbn [append version_on_line] in H. unfold not_newline in Hc.
    destruct (Ascii.eqb c newline); [discriminate Hc |].
    apply orb_false_elim in H. destruct H as [_ H]. now apply IH.
Qed.

Lemma version_off_line m :
  version_on_line m = false -> release_match m = None.
Proof.
  intros H. unfold release_match. rewrite release_match_star.
  rewrite star_none; [reflexivity |].
  intros a b -> Ha. unfold version_here.
  rewrite (version_on_line_suffix a b H Ha). now destruct b.
Qed.

Lemma no_slash_off_line m :
  contains "/" m = false -> version_on_line m = false.
Proof.
  induction m as [| c m IH]; [reflexivity |].
  cbn [contains]. intros H. apply orb_false_elim in H. destruct H as [Hs Hc].
  cbn [version_on_line]. destruct (Ascii.eqb c newline); [reflexivity |].
  rewrite (IH Hc), orb_false_r. cbn [version_start].
  cbn [startswith] in Hs. rewrite andb_true_r in Hs.
  rewrite Ascii.eqb_sym. now rewrite Hs.
Qed.

Lemma version_on_line_skip a post :
  all_chars (fun c => negb (Ascii.eqb c "/") && not_newline c) a = true ->
  version_on_line (a ++ post) = version_on_line post.
Proof.
  induction a as [| c a IH]; intros H; [reflexivity |].
  cbn [all_chars] in H. apply andb_prop in H. destruct H as [Hc Ha].
  apply andb_prop in Hc. destruct Hc as [Hs Hn].
  cbn [append version_on_line version_start]. unfold not_newline in Hn.
  destruct (Ascii.eqb c newline); [discriminate Hn |].
  apply negb_true_iff in Hs. rewrite Hs. cbn [andb orb]. now apply IH.
Qed.

Lemma digit_or_dot_plain c :
  digit_or_dot c = true -> negb (Ascii.eqb c "/") && not_newline c = true.
Proof.
  intros H. unfold not_newline.
  destruct (Ascii.eqb_spec c "/") as [-> | _]; [discriminate H |].
  destruct (Ascii.eqb_spec c newline) as [-> | _]; [discriminate H |].
  reflexivity.
Qed.

(** The capture is made at the last place of the first line where a
    version starts. *)
Lemma release_match_at_last_start pre opt v post :
  all_chars not_newline pre = true ->
  opt = "" \/ opt = "v" ->
  v <> "" -> all_chars digit_or_dot v = true ->
  starts_with digit_or_dot post = false ->
  version_on_line post = false ->
  release_match (pre ++ String "/" (opt ++ v ++ post)) = Some v.
Proof.
  intros Hpre Hopt Hne Hv Hpost Hline.
  assert (Hrest : version_on_line (opt ++ v ++ post) = false).
  { assert (Hvp : version_on_line (v ++ post) = false).
    { rewrite version_on_line_skip; [exact Hline |].
      apply (all_chars_impl digit_or_dot); [apply digit_or_dot_plain | exact Hv]. }
    destruct Hopt as [-> | ->]; [exact Hvp |].
    change ("v" ++ v ++ post)%string with (String "v" (v ++ post)).
    cbn [version_on_line version_start]. exact Hvp. }
  assert (Hstrip : strip_v (opt ++ v ++ post) = (v ++ post)%string).
  { destruct Hopt as [-> | ->]; [| reflexivity].
    destruct v as [| d v]; [congruence |].
    cbn [all_chars] in Hv. apply andb_prop in Hv. destruct Hv as [Hd _].
    cbn [append strip_v]. now rewrite (v_is_no_digit_or_dot d Hd). }
  unfold release_match. rewrite release_match_star.
  rewrite (star_found _ not_newline _ pre _ (Some v) Hpre);
    [reflexivity |].
  cbn [star]. change (not_newline "/") with true. cbv iota.
  rewrite star_none.
  + unfold version_here, version_start. rewrite Hstrip.
    change (Ascii.eqb "/" "/") with true. cbn [andb].
    assert (Hs : starts_with digit_or_dot (v ++ post) = true).
    { destruct v as [| d v]; [congruence |].
      cbn [all_chars] in Hv. apply andb_prop in Hv. now destruct Hv. }
    rewrite Hs. cbn [option_map]. now rewrite take_while_app.
  + intros a b Hab Ha. unfold version_here.
    rewrite (version_on_line_suffix a b); [now destruct b | | exact Ha].
    now rewrite <- Hab.
Qed.

(** Whatever the matcher returns holds a captured text. *)
Lemma release_star_some s r :
  star not_newline s (fun b => option_map Some (version_here b)) = Some r ->
  exists v, r = Some v.
Proof.
  intros H. apply star_sound in H. destruct H as (a & b & _ & _ & Hb).
  destruct (version_here b) as [v |]; [| discriminate].
  inversion Hb. now exists v.
Qed.

(** A place of the first line where a version starts is enough for a
    capture. *)
Lemma version_on_line_captured m :
  version_on_line m = true -> exists v, release_match m = Some v.
Proof.
  intros H. unfold release_match. rewrite release_match_star.
  assert (Hs : star not_newline m
                    (fun b => option_map Some (version_here b)) <> None).
  { induction m as [| c m IH]; [discriminate H |].
    cbn [version_on_line] in H. cbn [star]. unfold not_newline at 1.
    destruct (Ascii.eqb c newline); [discriminate H |]. cbn [negb].
    destruct (star not_newline m _) as [r |] eqn:E; [discriminate |].
    destruct (version_on_line m); [now exfalso; apply IH |].
    rewrite orb_false_r in H. unfold version_here. now rewrite H. }
  destruct (star not_newline m _) as [r |] eqn:E; [| congruence].
  destruct (release_star_some m r E) as (v & ->). now exists v.
Qed.

(** X11. The release pattern captures at the last slash of the first line
    that is followed by an optional [v] and a digit or a dot, and takes the
    whole run of digits and dots found there.  A message whose first line
    has no such place, in particular a message without any slash, gives no
    capture, so it never switches the version. *)
Theorem release_capture_is_last_on_first_line :
  (forall pre opt v post,
      all_chars not_newline pre = true ->
      opt = "" \/ opt = "v" ->
      v <> "" -> all_chars digit_or_dot v = true ->
      starts_with digit_or_dot post = false ->
      version_on_line post = false ->
      release_match (pre ++ String "/" (opt ++ v ++ post)) = Some v)
  /\ (forall m, version_on_line m = false -> release_match m = None)
  /\ (forall m, contains "/" m = false -> release_match m = None).
Proof.
  split; [| split].
  - apply release_match_at_last_start.
  - apply version_off_line.
  - intros m H. now apply version_off_line, no_slash_off_line.
Qed.

Lemma release_capture_is_last_on_first_line_witness :
  release_match "Merge branch release/1.0 into hotfix/v1.0.1 (done)"
  = Some "1.0.1".
Proof.
  refine (proj1 release_capture_is_last_on_first_line
                "Merge branch release/1.0 into hotfix" "v" "1.0.1" " (done)"
                eq_refl (or_intror eq_refl) _ eq_refl eq_refl eq_refl).
  discriminate.
Defined.

End ReleaseCapture.

(* ================================================================== *)
(** * Release markers, from the shape of the message *)
(* ================================================================== *)

Section ReleaseMarkerClaim.

(** C2, as amended.  Take a commit that passes the skip test and whose
    message holds ["release"], in a state whose version is keyed.  If the
    first line of the message has a slash followed by an optional [v] and
    one or more digits or dots, the run of digits and dots behind the last
    such slash of that line is captured: it becomes the current version,
    the ledger gets a fresh empty entry under it, the iteration ends with
    that entry holding the commit's own date only and every other entry
    untouched, and the commits that follow without switching the version
    leave the version as it is and are all filed in that entry.  A first
    line with such a place always gives a capture; a first line without
    one leaves the version unchanged. *)
Theorem release_marker_switches_version c version (versions : ledger) :
  has_key version versions ->
  kept c = true ->
  contains "release" (msg c) = true ->
  (forall pre opt v post,
      msg c = (pre ++ String "/" (opt ++ v ++ post))%string ->
      all_chars not_newline pre = true ->
      opt = "" \/ opt = "v" ->
      v <> "" -> all_chars digit_or_dot v = true ->
      starts_with digit_or_dot post = false ->
      version_on_line post = false ->
      release_match (msg c) = Some v
      /\ switch_version (msg c) version versions
         = (v, Dict.set v [] versions)
      /\ exists versions',
          loop_body (version, versions) c = Ok (v, versions')
          /\ Dict.get v versions'
             = Some [(author_date c, contribute [] (msg c))]
          /\ (forall k, k <> v ->
                        Dict.get k versions' = Dict.get k versions)
          /\ forall cs,
               (forall c', In c' cs -> is_marker c' = false) ->
               exists versions'',
                 for_each loop_body cs (v, versions') = Ok (v, versions'')
                 /\ Dict.get v versions''
                    = Some (fold_left file_commit cs
                              [(author_date c, contribute [] (msg c))])
                 /\ (forall k, k <> v ->
                               Dict.get k versions'' = Dict.get k versions'))
  /\ (version_on_line (msg c) = true ->
      exists v versions',
        release_match (msg c) = Some v
        /\ v <> "" /\ all_chars digit_or_dot v = true
        /\ loop_body (version, versions) c = Ok (v, versions')
        /\ Dict.get v versions'
           = Some [(author_date c, contribute [] (msg c))])
  /\ (version_on_line (msg c) = false ->
      release_match (msg c) = None
      /\ exists versions',
          loop_body (version, versions) c = Ok (version, versions')).
Proof.
  intros Hkey Hk Hrel.
  pose proof (release_test_effect c version versions Hkey Hk Hrel) as Heff.
  split; [| split].
  - intros pre opt v post Hmsg Hpre Hopt Hne Hv Hpost Hline.
    assert (Hm : release_match (msg c) = Some v)
      by (rewrite Hmsg; now apply release_match_at_last_start).
    rewrite Hm in Heff. destruct Heff as (_ & Hsw & Hrest).
    split; [exact Hm |]. split; [exact Hsw | exact Hrest].
  - intros Hon. destruct (version_on_line_captured _ Hon) as (v & Hm).
    rewrite Hm in Heff.
    destruct Heff as (Hshape & _ & versions' & Hrun & Hget & _).
    destruct Hshape as (_ & _ & _ & _ & _ & _ & Hne & Hall & _).
    exists v, versions'. auto.
  - intros Hoff.
    assert (Hm : release_match (msg c) = None) by now apply version_off_line.
    rewrite Hm in Heff. split; [exact Hm | exact Heff].
Qed.

Lemma release_marker_switches_version_witness :
  exists versions',
    loop_body initial_state
              (mkCommit "prepare release/v1.2.0 (final)" "2024-02-01" true)
    = Ok ("1.2.0", versions')
    /\ Dict.get "1.2.0" versions'
       = Some [("2024-02-01", ["prepare release/v1.2.0 (final)"])].
Proof.
  destruct (proj1 (release_marker_switches_version
                     (mkCommit "prepare release/v1.2.0 (final)"
                               "2024-02-01" true)
                     "0.0.0" [("0.0.0", [])]
                     initial_keyed eq_refl eq_refl)
                  "prepare release" "v" "1.2.0" " (final)"
                  eq_refl eq_refl (or_intror eq_refl)
                  ltac:(discriminate) eq_refl eq_refl eq_refl)
    as (_ & _ & versions' & Hrun & Hget & _).
  exists versions'. split; [exact Hrun | exact Hget].
Defined.

(** C2 as it is worded fails: the message holds ["release"] and, behind a
    newline, a slash with a [v] and digits, so it has the shape the words
    describe; the pattern stops at the newline, nothing is captured and
    the version stays ["0.0.0"]. *)
Lemma marker_behind_newline_is_not_seen :
  kept (mkCommit ("release notes" ++ nl ++ "see build/v1.2")
                 "2024-02-01" true) = true
  /\ contains "release" ("release notes" ++ nl ++ "see build/v1.2") = true
  /\ version_anywhere ("release notes" ++ nl ++ "see build/v1.2") = true
  /\ release_match ("release notes" ++ nl ++ "see build/v1.2") = None
  /\ loop_body initial_state
       (mkCommit ("release notes" ++ nl ++ "see build/v1.2")
                 "2024-02-01" true)
     = Ok ("0.0.0",
           [("0.0.0", [("2024-02-01", ["release notes"; "see build/v1.2"])])]).
Proof.
  repeat split; vm_compute; reflexivity.
Qed.

End ReleaseMarkerClaim.

(* ================================================================== *)
(** * More on the order and the content of the output *)
(* ================================================================== *)

Section RenderedContent.

Lemma compare_refl_s (s : string) : String.compare s s = Eq.
Proof.
  induction s as [| c s IH]; simpl; [reflexivity |].
  unfold Ascii.compare. now rewrite N.compare_refl.
Qed.

Lemma leb_refl_s (s : string) : String.leb s s = true.
Proof. unfold String.leb. now rewrite compare_refl_s. Qed.

Lemma insert_filter_key (A : Type) (key : A -> string) (reverse : bool)
      (k0 : string) x l :
  filter (fun y => String.eqb (key y) k0) (insert key reverse x l)
  = filter (fun y => String.eqb (key y) k0) (x :: l).
Proof.
  induction l as [| y l IH]; [reflexivity |].
  cbn [insert]. destruct (before key reverse x y) eqn:E; [reflexivity |].
  cbn [filter] in *. rewrite IH.
  destruct (String.eqb_spec (key x) k0) as [Hx | _]; [| reflexivity].
  destruct (String.eqb_spec (key y) k0) as [Hy | _]; [| reflexivity].
  exfalso. unfold before in E. rewrite Hx, Hy in E.
  destruct reverse; rewrite leb_refl_s in E; discriminate.
Qed.

(** X12. The sort of the version labels is stable: labels with the same
    key, such as 1.0 and 1.0.0, are rendered in the order in which the
    ledger received them. *)
Theorem equal_keys_render_in_insertion_order (versions : ledger) (k0 : string) :
  filter (fun v => String.eqb (get_version v) k0)
         (sorted get_version true (Dict.keys versions))
  = filter (fun v => String.eqb (get_version v) k0) (Dict.keys versions).
Proof.
  induction (Dict.keys versions) as [| x l IH]; [reflexivity |].
  cbn [sorted fold_right]. fold (sorted get_version true l).
  rewrite insert_filter_key. cbn [filter]. now rewrite IH.
Qed.

Lemma flat_map_all_nil {A B : Type} (g : A -> list B) l :
  (forall x, In x l -> g x = []) -> flat_map g l = [].
Proof.
  induction l as [| x l IH]; intros H; cbn [flat_map]; [reflexivity |].
  rewrite (H x) by now left. apply IH. intros y Hy. apply H. now right.
Qed.

(** X13. In combined rendering a version none of whose dates holds a
    message, as when all its commits are merges, is printed as its heading
    followed by the single bullet "Bugfixes and improvements". *)
Theorem version_without_messages_prints_placeholder
        (bp : string) (versions : ledger) st v (dates : bucket) :
  Dict.get v versions = Some dates ->
  (forall d l, Dict.get d dates = Some l -> l = []) ->
  snd (version_body bp false versions st v)
  = snd st ++ [version_heading v;
               (bp ++ "  - Bugfixes and improvements")%string].
Proof.
  intros Hv Hall. rewrite version_body_lines. f_equal.
  unfold version_lines. rewrite Hv. cbv zeta.
  rewrite flat_map_all_nil; [reflexivity |].
  intros d _. unfold filed.
  destruct (Dict.get d dates) as [l |] eqn:E; [now apply (Hall d) | reflexivity].
Qed.

Lemma version_without_messages_prints_placeholder_witness :
  print_md_commits "repo" [("0.0.0", [("2024-03-01", [])])] false
  = ["# repo"; version_heading "0.0.0"; "  - Bugfixes and improvements"].
Proof.
  unfold print_md_commits, md_commits. cbn [fold_left sorted fold_right Dict.keys map fst insert].
  apply (version_without_messages_prints_placeholder
           "" [("0.0.0", [("2024-03-01", [])])] ("", ["# repo"]) "0.0.0"
           [("2024-03-01", [])] eq_refl).
  intros d l H. cbn [Dict.get] in H.
  destruct (String.eqb d "2024-03-01"); [now inversion H | discriminate].
Defined.

(** X14. Rendering loses no message: every message filed under a date of a
    version of the ledger is a bullet of the output, in combined and in
    date-grouped rendering alike. *)
Theorem every_filed_message_is_rendered
        (bp name : string) (versions : ledger) v (dates : bucket) d l m :
  Dict.get v versions = Some dates ->
  Dict.get d dates = Some l ->
  In m l ->
  In (bp ++ "  - " ++ m)%string (md_commits bp name versions false)
  /\ In (bp ++ "    - " ++ m)%string (md_commits bp name versions true).
Proof.
  intros Hv Hd Hm.
  assert (Hvin : In v (sorted get_version true (Dict.keys versions))).
  { apply (Permutation_in _ (Permutation_sym (sorted_perm _ get_version true _))).
    eapply get_some_in_keys; eauto. }
  assert (Hdin : In d (sorted self true (Dict.keys dates))).
  { apply (Permutation_in _ (Permutation_sym (sorted_perm _ self true _))).
    eapply get_some_in_keys; eauto. }
  assert (Hf : filed d dates = l) by (unfold filed; now rewrite Hd).
  split; rewrite md_commits_lines; right; apply in_flat_map; exists v;
    (split; [exact Hvin |]); unfold version_lines; rewrite Hv; cbv zeta; right.
  - assert (Hc : In m (flat_map (fun d0 => filed d0 dates)
                                (sorted self true (Dict.keys dates)))).
    { apply in_flat_map. exists d. split; [exact Hdin | now rewrite Hf]. }
    destruct (flat_map (fun d0 => filed d0 dates)
                       (sorted self true (Dict.keys dates))) as [| x xs] eqn:E;
      [destruct Hc |].
    cbn [List.length Nat.ltb Nat.leb].
    apply (in_map (fun message => (bp ++ "  - " ++ message)%string)).
    apply (Permutation_in _ (Permutation_sym (sorted_perm _ self false _))).
    exact Hc.
  - apply in_flat_map. exists d. split; [exact Hdin |].
    rewrite Hf. unfold date_lines.
    destruct l as [| x xs]; [destruct Hm |].
    cbn [List.length Nat.ltb Nat.leb]. right.
    apply (in_map (fun message => (bp ++ "    - " ++ message)%string)).
    apply (Permutation_in _ (Permutation_sym (sorted_perm _ self false _))).
    exact Hm.
Qed.

Lemma every_filed_message_is_rendered_witness :
  In "  - Add: parser"
     (md_commits "" "repo"
        [("0.0.0", [("2024-01-02", ["Fix: lexer"; "Add: parser"])])] false).
Proof.
  apply (every_filed_message_is_rendered
           "" "repo" [("0.0.0", [("2024-01-02", ["Fix: lexer"; "Add: parser"])])]
           "0.0.0" [("2024-01-02", ["Fix: lexer"; "Add: parser"])]
           "2024-01-02" ["Fix: lexer"; "Add: parser"] "Add: parser"
           eq_refl eq_refl).
  simpl. tauto.
Defined.

Lemma filter_flat_map {A B : Type} (f : B -> bool) (g : A -> list B) l :
  filter f (flat_map g l) = flat_map (fun x => filter f (g x)) l.
Proof.
  induction l as [| x l IH]; cbn [flat_map]; [reflexivity |].
  now rewrite filter_app, IH.
Qed.

Lemma date_lines_heading bp d messages :
  bp = "" \/ bp = nl ->
  filter is_date_heading (date_lines bp d messages) = [date_heading d].
Proof.
  intros Hbp. unfold date_lines.
  destruct (Nat.ltb 0 (List.length messages)); cbn [filter].
  - change (is_date_heading (nl ++ "### Date: " ++ d)) with true. cbv iota.
    unfold date_heading. f_equal. apply filter_none.
    intros x Hin. apply in_map_iff in Hin. destruct Hin as (m & <- & _).
    destruct Hbp as [-> | ->]; reflexivity.
  - change (is_date_heading (nl ++ "### Date: " ++ d)) with true. cbv iota.
    destruct Hbp as [-> | ->]; reflexivity.
Qed.

(** X15. In date-grouped rendering, on the console and in the file, the
    date headings are those of the dates of each version, versions in
    their rendering order and, within a version, dates in descending order
    of their labels. *)
Theorem dates_render_in_descending_order
        (bp name : string) (versions : ledger) :
  bp = "" \/ bp = nl ->
  filter is_date_heading (md_commits bp name versions true)
  = flat_map
      (fun v =>
         map date_heading
             (sorted self true
                (Dict.keys match Dict.get v versions with
                           | Some dates => dates
                           | None => []
                           end)))
      (sorted get_version true (Dict.keys versions))
  /\ forall (dates : bucket),
       Sorted (fun a b => String.leb b a = true)
              (sorted self true (Dict.keys dates))
       /\ Permutation (sorted self true (Dict.keys dates)) (Dict.keys dates).
Proof.
  intros Hbp. split.
  - rewrite md_commits_lines. cbn [filter].
    change (is_date_heading ("# " ++ name)) with false. cbv iota.
    rewrite filter_flat_map. apply flat_map_ext. intros v.
    unfold version_lines. cbv zeta. cbn [filter].
    change (is_date_heading (version_heading v)) with false. cbv iota.
    apply filter_flat_map_one. intros d. now apply date_lines_heading.
  - intros dates. split; [apply (sorted_sorted _ self true) | apply sorted_perm].
Qed.

Lemma dates_render_in_descending_order_witness :
  filter is_date_heading
         (print_md_commits "repo"
            [("0.0.0", [("2024-01-02", ["a"]); ("2024-03-01", []);
                        ("2024-02-11", ["b"])])] true)
  = [date_heading "2024-03-01"; date_heading "2024-02-11";
     date_heading "2024-01-02"].
Proof.
  exact (proj1 (dates_render_in_descending_order
                  "" "repo"
                  [("0.0.0", [("2024-01-02", ["a"]); ("2024-03-01", []);
                              ("2024-02-11", ["b"])])]
                  (or_introl eq_refl))).
Defined.

End RenderedContent.

(* ================================================================== *)
(** * The key of a version and the order of numbers *)
(* ================================================================== *)

Section NumericOrder.
Implicit Types (s t a b : string).

Lemma ascii_compare_nat (c d : ascii) :
  Ascii.compare c d = Nat.compare (nat_of_ascii c) (nat_of_ascii d).
Proof. unfold Ascii.compare, nat_of_ascii. apply N2Nat.inj_compare. Qed.

Lemma is_digit_range c :
  is_digit c = true -> 48 <= nat_of_ascii c <= 57.
Proof.
  unfold is_digit. intros H. apply andb_prop in H. destruct H as [H1 H2].
  apply Nat.leb_le in H1, H2. lia.
Qed.

Lemma digits_value_bound s :
  all_chars is_digit s = true -> digits_value s < 10 ^ length s.
Proof.
  induction s as [| c s IH]; simpl; intros H; [lia |].
  apply andb_prop in H. destruct H as [Hc Hs].
  apply is_digit_range in Hc. specialize (IH Hs).
  assert (nat_of_ascii c - 48 <= 9) by lia. nia.
Qed.

(** Digit strings of one length compare as the numbers they write. *)
Lemma compare_digits s : forall t,
  length s = length t ->
  all_chars is_digit s = true -> all_chars is_digit t = true ->
  String.compare s t = Nat.compare (digits_value s) (digits_value t).
Proof.
  induction s as [| c s IH]; intros [| d t] Hlen Hs Ht;
    try discriminate Hlen; [reflexivity |].
  cbn [all_chars] in Hs, Ht.
  apply andb_prop in Hs. destruct Hs as [Hc Hs].
  apply andb_prop in Ht. destruct Ht as [Hd Ht].
  injection Hlen as Hlen.
  pose proof (digits_value_bound s Hs) as Bs.
  pose proof (digits_value_bound t Ht) as Bt.
  apply is_digit_range in Hc. apply is_digit_range in Hd.
  cbn [String.compare digits_value]. rewrite ascii_compare_nat.
  rewrite <- Hlen in *. set (P := 10 ^ length s) in *.
  destruct (Nat.compare_spec (nat_of_ascii c) (nat_of_ascii d)) as [E | E | E].
  - rewrite E, (IH t Hlen Hs Ht).
    destruct (Nat.compare_spec (digits_value s) (digits_value t));
      symmetry; [apply Nat.compare_eq_iff | apply Nat.compare_lt_iff
                 | apply Nat.compare_gt_iff]; lia.
  - symmetry. apply Nat.compare_lt_iff. nia.
  - symmetry. apply Nat.compare_gt_iff. nia.
Qed.

Lemma compare_app a : forall a' s s',
  length a = length a' ->
  String.compare (a ++ s) (a' ++ s')
  = match String.compare a a' with
    | Eq => String.compare s s'
    | r => r
    end.
Proof.
  induction a as [| c a IH]; intros [| c' a'] s s' Hlen;
    try discriminate Hlen; [reflexivity |].
  injection Hlen as Hlen. cbn [append String.compare].
  destruct (Ascii.compare c c'); [now apply IH | reflexivity | reflexivity].
Qed.

Lemma zeros_digits n : all_chars is_digit (zeros n) = true.
Proof. induction n; simpl; auto. Qed.

Lemma zeros_length n : length (zeros n) = n.
Proof. induction n; simpl; auto. Qed.

Lemma zeros_value n s : digits_value (zeros n ++ s) = digits_value s.
Proof. induction n; simpl; auto. Qed.

(** A field of at most four digits is filled to four digits that write the
    same number. *)
Lemma zfill_digits s :
  all_chars is_digit s = true -> length s <= 4 ->
  length (zfill 4 s) = 4
  /\ all_chars is_digit (zfill 4 s) = true
  /\ digits_value (zfill 4 s) = digits_value s.
Proof.
  intros Hs Hlen.
  assert (E : zfill 4 s = (zeros (4 - length s) ++ s)%string).
  { unfold zfill. destruct s as [| c s]; [now rewrite app_nil_r_s |].
    cbn [all_chars] in Hs. apply andb_prop in Hs. destruct Hs as [Hc _].
    destruct (Ascii.eqb_spec c "+") as [-> | _]; [discriminate Hc |].
    destruct (Ascii.eqb_spec c "-") as [-> | _]; [discriminate Hc |].
    reflexivity. }
  rewrite E. split; [| split].
  - rewrite length_app_s, zeros_length. lia.
  - now rewrite all_chars_app, zeros_digits.
  - apply zeros_value.
Qed.

Lemma digits_no_dot s :
  all_chars is_digit s = true ->
  all_chars (fun c => negb (Ascii.eqb c ".")) s = true.
Proof.
  apply all_chars_impl. intros c H.
  destruct (Ascii.eqb_spec c ".") as [-> | _]; [discriminate H | reflexivity].
Qed.

Lemma get_version_three a b c :
  all_chars is_digit a = true -> all_chars is_digit b = true ->
  all_chars is_digit c = true ->
  get_version (a ++ "." ++ b ++ "." ++ c)
  = (zfill 4 a ++ "." ++ zfill 4 b ++ "." ++ zfill 4 c)%string.
Proof.
  intros Ha Hb Hc. unfold get_version.
  change (a ++ "." ++ b ++ "." ++ c)%string
    with (a ++ String "." (b ++ String "." c))%string.
  rewrite (split_app "." a _ (digits_no_dot a Ha)).
  rewrite (split_app "." b _ (digits_no_dot b Hb)).
  rewrite (split_single "." c (digits_no_dot c Hc)).
  reflexivity.
Qed.

(** X16. For labels of three fields, each of at most four digits, the keys
    of [get_version] compare as the triples of numbers the fields write:
    major first, then minor, then patch.  So the rendering order of such
    labels is the numeric order of versions, descending. *)
Theorem version_keys_compare_numerically (a b c a' b' c' : string) :
  all_chars is_digit a = true -> length a <= 4 ->
  all_chars is_digit b = true -> length b <= 4 ->
  all_chars is_digit c = true -> length c <= 4 ->
  all_chars is_digit a' = true -> length a' <= 4 ->
  all_chars is_digit b' = true -> length b' <= 4 ->
  all_chars is_digit c' = true -> length c' <= 4 ->
  String.compare (get_version (a ++ "." ++ b ++ "." ++ c))
                 (get_version (a' ++ "." ++ b' ++ "." ++ c'))
  = compare3 (digits_value a) (digits_value b) (digits_value c)
             (digits_value a') (digits_value b') (digits_value c').
Proof.
  intros Ha La Hb Lb Hc Lc Ha' La' Hb' Lb' Hc' Lc'.
  rewrite !get_version_three by assumption.
  destruct (zfill_digits a Ha La) as (A1 & A2 & A3).
  destruct (zfill_digits b Hb Lb) as (B1 & B2 & B3).
  destruct (zfill_digits c Hc Lc) as (C1 & C2 & C3).
  destruct (zfill_digits a' Ha' La') as (A1' & A2' & A3').
  destruct (zfill_digits b' Hb' Lb') as (B1' & B2' & B3').
  destruct (zfill_digits c' Hc' Lc') as (C1' & C2' & C3').
  unfold compare3.
  rewrite compare_app by congruence.
  rewrite (compare_digits _ _ (eq_trans A1 (eq_sym A1')) A2 A2'), A3, A3'.
  destruct (Nat.compare (digits_value a) (digits_value a')); try reflexivity.
  change ("." ++ zfill 4 b ++ "." ++ zfill 4 c)%string
    with (String "." (zfill 4 b ++ "." ++ zfill 4 c)).
  change ("." ++ zfill 4 b' ++ "." ++ zfill 4 c')%string
    with (String "." (zfill 4 b' ++ "." ++ zfill 4 c')).
  cbn [String.compare]. change (Ascii.compare "." ".") with Eq. cbv iota.
  rewrite compare_app by congruence.
  rewrite (compare_digits _ _ (eq_trans B1 (eq_sym B1')) B2 B2'), B3, B3'.
  destruct (Nat.compare (digits_value b) (digits_value b')); try reflexivity.
  change ("." ++ zfill 4 c)%string with (String "." (zfill 4 c)).
  change ("." ++ zfill 4 c')%string with (String "." (zfill 4 c')).
  cbn [String.compare]. change (Ascii.compare "." ".") with Eq. cbv iota.
  rewrite (compare_digits _ _ (eq_trans C1 (eq_sym C1')) C2 C2'), C3, C3'.
  reflexivity.
Qed.

Lemma version_keys_compare_numerically_witness :
  String.compare (get_version "2.0.0") (get_version "10.0.0") = Lt.
Proof.
  exact (version_keys_compare_numerically
           "2" "0" "0" "10" "0" "0"
           eq_refl (le_S _ _ (le_S _ _ (le_S _ _ (le_n 1))))
           eq_refl (le_S _ _ (le_S _ _ (le_S _ _ (le_n 1))))
           eq_refl (le_S _ _ (le_S _ _ (le_S _ _ (le_n 1))))
           eq_refl (le_S _ _ (le_S _ _ (le_n 2)))
           eq_refl (le_S _ _ (le_S _ _ (le_S _ _ (le_n 1))))
           eq_refl (le_S _ _ (le_S _ _ (le_S _ _ (le_n 1))))).
Defined.

End NumericOrder.

(* ================================================================== *)
(** * What the output is made of *)
(* ================================================================== *)

Section OutputItems.

Lemma sorted_in (A : Type) (key : A -> string) (reverse : bool) l x :
  In x (sorted key reverse l) <-> In x l.
Proof.
  split; apply Permutation_in;
    [apply sorted_perm | apply Permutation_sym, sorted_perm].
Qed.

(** X17. The output holds nothing but the title, the headings of the
    versions and dates of the ledger, bullets of messages filed in the
    ledger and placeholder bullets. *)
Theorem output_is_made_of_ledger_content
        (bp name : string) (versions : ledger) (date_group : bool) line :
  In line (md_commits bp name versions date_group) ->
  line = ("# " ++ name)%string
  \/ (exists v, In v (Dict.keys versions) /\ line = version_heading v)
  \/ (exists v dates d,
         Dict.get v versions = Some dates /\ In d (Dict.keys dates)
         /\ line = date_heading d)
  \/ line = (bp ++ "  - " ++ placeholder)%string
  \/ line = (bp ++ "    - " ++ placeholder)%string
  \/ (exists e, filed_in versions e
                /\ (line = (bp ++ "  - " ++ e)%string
                    \/ line = (bp ++ "    - " ++ e)%string)).
Proof.
  rewrite md_commits_lines. intros [<- | Hin]; [now left |]. right.
  apply in_flat_map in Hin. destruct Hin as (v & Hv & Hline).
  apply sorted_in in Hv. unfold version_lines in Hline.
  destruct Hline as [<- | Hline]; [left; eauto |]. right.
  destruct (Dict.get v versions) as [dates |] eqn:Hget.
  - cbv zeta in Hline.
    assert (Hfiled : forall d e, In d (sorted self true (Dict.keys dates)) ->
                                 In e (filed d dates) -> filed_in versions e).
    { intros d e Hd He. unfold filed in He.
      destruct (Dict.get d dates) as [l |] eqn:E; [| destruct He].
      exists v, dates, d, l. auto. }
    destruct date_group.
    + apply in_flat_map in Hline. destruct Hline as (d & Hd & Hline).
      unfold date_lines in Hline.
      destruct (Nat.ltb 0 (List.length (filed d dates))).
      * destruct Hline as [<- | Hline].
        -- left. exists v, dates, d. apply sorted_in in Hd. auto.
        -- apply in_map_iff in Hline. destruct Hline as (e & <- & He).
           apply sorted_in in He. do 3 right. exists e. split; [| now right].
           now apply (Hfiled d).
      * destruct Hline as [<- | [<- | []]].
        -- left. exists v, dates, d. apply sorted_in in Hd. auto.
        -- right. right. now left.
    + destruct (Nat.ltb 0 _).
      * apply in_map_iff in Hline. destruct Hline as (e & <- & He).
        apply sorted_in in He. apply in_flat_map in He.
        destruct He as (d & Hd & He).
        do 3 right. exists e. split; [| now left]. now apply (Hfiled d).
      * destruct Hline as [<- | []]. right. now left.
  - cbv zeta in Hline. cbn in Hline. destruct date_group.
    + destruct Hline.
    + destruct Hline as [<- | []]. right. now left.
Qed.

Lemma output_is_made_of_ledger_content_witness :
  "  - Add: parser" = "# repo"
  \/ (exists v, In v (Dict.keys [("0.0.0", [("2024-01-02", ["Add: parser"])])])
                /\ "  - Add: parser" = version_heading v)
  \/ (exists v dates d,
         Dict.get v [("0.0.0", [("2024-01-02", ["Add: parser"])])] = Some dates
         /\ In d (Dict.keys dates) /\ "  - Add: parser" = date_heading d)
  \/ "  - Add: parser" = ("" ++ "  - " ++ placeholder)%string
  \/ "  - Add: parser" = ("" ++ "    - " ++ placeholder)%string
  \/ (exists e, filed_in [("0.0.0", [("2024-01-02", ["Add: parser"])])] e
                /\ ("  - Add: parser" = ("" ++ "  - " ++ e)%string
                    \/ "  - Add: parser" = ("" ++ "    - " ++ e)%string)).
Proof.
  apply (output_is_made_of_ledger_content
           "" "repo" [("0.0.0", [("2024-01-02", ["Add: parser"])])] false).
  vm_compute. tauto.
Defined.

End OutputItems.

(* ================================================================== *)
(** * Labels with missing or spare fields; filing in place *)
(* ================================================================== *)

Section EdgeCases.

(** X19. A missing minor or patch field counts as ["0"], and fields after
    the third are not read: [a], [a.0.0] have one key, so have [a.b] and
    [a.b.0], and so have [a.b.c] and [a.b.c.rest]. *)
Theorem missing_and_spare_fields (a b c rest : string) :
  all_chars (fun x => negb (Ascii.eqb x ".")) a = true ->
  all_chars (fun x => negb (Ascii.eqb x ".")) b = true ->
  all_chars (fun x => negb (Ascii.eqb x ".")) c = true ->
  get_version a = get_version (a ++ ".0.0")
  /\ get_version (a ++ "." ++ b) = get_version (a ++ "." ++ b ++ ".0")
  /\ get_version (a ++ "." ++ b ++ "." ++ c ++ "." ++ rest)
     = get_version (a ++ "." ++ b ++ "." ++ c).
Proof.
  intros Ha Hb Hc. unfold get_version.
  change (a ++ ".0.0")%string with (a ++ String "." "0.0")%string.
  change (a ++ "." ++ b ++ ".0")%string
    with (a ++ String "." (b ++ String "." "0"))%string.
  change (a ++ "." ++ b)%string with (a ++ String "." b)%string.
  change (a ++ "." ++ b ++ "." ++ c ++ "." ++ rest)%string
    with (a ++ String "." (b ++ String "." (c ++ String "." rest)))%string.
  change (a ++ "." ++ b ++ "." ++ c)%string
    with (a ++ String "." (b ++ String "." c))%string.
  rewrite !(split_app "." a _ Ha), !(split_app "." b _ Hb),
    (split_app "." c _ Hc), (split_single "." a Ha),
    (split_single "." b Hb), (split_single "." c Hc).
  repeat split; reflexivity.
Qed.

Lemma missing_and_spare_fields_witness :
  get_version "1" = get_version "1.0.0"
  /\ get_version "1.2" = get_version "1.2.0"
  /\ get_version "1.2.3.4" = get_version "1.2.3".
Proof.
  exact (missing_and_spare_fields "1" "2" "3" "4" eq_refl eq_refl eq_refl).
Defined.

Lemma appended_extends l check entry :
  exists extra, appended l check entry = l ++ extra.
Proof.
  unfold appended. destruct (mem check l).
  - exists []. now rewrite app_nil_r.
  - now exists [entry].
Qed.

Lemma add_lines_extends lines : forall l,
  exists extra, add_lines l lines = l ++ extra.
Proof.
  unfold add_lines. induction lines as [| line lines IH]; intros l; simpl.
  - exists []. now rewrite app_nil_r.
  - destruct (appended_extends l line (parse_message line)) as (e1 & ->).
    destruct (IH (l ++ e1)) as (e2 & ->).
    exists (e1 ++ e2). now rewrite app_assoc.
Qed.

Lemma contribute_extends l m : exists extra, contribute l m = l ++ extra.
Proof.
  unfold contribute. destruct (version_search m).
  - exists []. now rewrite app_nil_r.
  - destruct (contains nl m);
      [apply add_lines_extends | apply appended_extends].
Qed.

(** X20. A kept commit that does not switch the version files in place:
    the version stays, the messages already filed under the commit's date
    keep their places with the new ones put after them, and the other
    dates of the version and the other versions are as before. *)
Theorem filing_is_append_only (c : Commit) (st : string * ledger)
        (dates : bucket) :
  kept c = true -> is_marker c = false ->
  Dict.get (fst st) (snd st) = Some dates ->
  exists versions' dates' extra,
    loop_body st c = Ok (fst st, versions')
    /\ Dict.get (fst st) versions' = Some dates'
    /\ Dict.get (author_date c) dates'
       = Some (filed (author_date c) dates ++ extra)
    /\ (forall d, d <> author_date c ->
                  Dict.get d dates' = Dict.get d dates)
    /\ (forall k, k <> fst st ->
                  Dict.get k versions' = Dict.get k (snd st)).
Proof.
  intros Hk Hm Hd.
  assert (Hkey : has_key (fst st) (snd st)) by (unfold has_key; congruence).
  destruct (loop_body_step st c Hkey) as [Hbody _].
  destruct (contribute_extends (filed (author_date c) dates) (msg c))
    as (extra & Hex).
  assert (Hstep : step st c
                  = (fst st,
                     Dict.set (fst st)
                       (Dict.set (author_date c)
                          (contribute (filed (author_date c) dates) (msg c))
                          dates) (snd st))).
  { unfold step. rewrite Hk, (switch_unmarked c _ _ Hk Hm), Hd. reflexivity. }
  exists (snd (step st c)),
         (Dict.set (author_date c)
            (contribute (filed (author_date c) dates) (msg c)) dates),
         extra.
  rewrite Hbody, Hstep. cbn [snd].
  split; [reflexivity |]. split; [apply get_set_same |].
  split; [rewrite get_set_same; now rewrite Hex |].
  split.
  - intros d Hne. now apply get_set_other.
  - intros k Hne. now apply get_set_other.
Qed.

Lemma filing_is_append_only_witness :
  exists versions' dates' extra,
    loop_body ("0.0.0", [("0.0.0", [("2024-01-02", ["Fix: a"])])])
              (mkCommit "add b" "2024-01-02" true)
    = Ok ("0.0.0", versions')
    /\ Dict.get "0.0.0" versions' = Some dates'
    /\ Dict.get "2024-01-02" dates' = Some (["Fix: a"] ++ extra).
Proof.
  destruct (filing_is_append_only
              (mkCommit "add b" "2024-01-02" true)
              ("0.0.0", [("0.0.0", [("2024-01-02", ["Fix: a"])])])
              [("2024-01-02", ["Fix: a"])] eq_refl eq_refl eq_refl)
    as (versions' & dates' & extra & H1 & H2 & H3 & _).
  exists versions', dates', extra. split; [exact H1 |]. split; [exact H2 | exact H3].
Defined.

End EdgeCases.
